(** * spotify-cli: a shallow embedding of [spotify_cli.py]

    The program is a thin command dispatcher over a [spotipy.Spotify]
    client.  Everything it does is an effect: it prints, prompts, opens a
    browser, and calls methods of the client.  The embedding therefore
    runs each Python function as a computation that yields a trace of
    events together with the way the function ended (returned, raised, or
    called [sys.exit]).

    Boundaries of the model:
    - the [spotipy] client is a record of responses, one per method the
      program calls; a response is either a value or a raised exception;
    - JSON objects returned by the service are records holding the keys
      the program reads;
    - [print], [input] and [webbrowser.open] do not raise, and neither
      does the construction of the client: the statements below are about
      runs in which the terminal takes the output, the user types a line at
      the prompt and spotipy accepts the configuration;
    - [argparse] is taken by its result: either it exits by itself (usage
      error, [--help]) or it hands a namespace to [main];
    - [python-dotenv] is taken by its documented behaviour
      ([override=False]); the file that [find_dotenv()] resolves to is a
      parameter of the process. *)

From Stdlib Require Import ZArith String Ascii DecimalString.
From stdpp Require Import gmap strings list.

Open Scope string_scope.
Open Scope list_scope.
Open Scope Z_scope.

(** ** Strings and formatting *)

Definition nl : string := String (ascii_of_nat 10) "".

(** [str(n)] for a Python [int]. *)
Definition str_of_Z (z : Z) : string := NilZero.string_of_int (Z.to_int z).

(** [sep.join(xs)]. *)
Definition py_join (sep : string) (xs : list string) : string :=
  String.concat sep xs.

(** [s.lower()], on the ASCII letters. *)
Definition lower_ascii (c : ascii) : ascii :=
  let n := nat_of_ascii c in
  if ((65 <=? n) && (n <=? 90))%nat then ascii_of_nat (n + 32) else c.

Fixpoint lower (s : string) : string :=
  match s with
  | EmptyString => EmptyString
  | String c s' => String (lower_ascii c) (lower s')
  end.

(** [x in xs] for a list of strings. *)
Definition str_in (x : string) (xs : list string) : bool :=
  bool_decide (x ∈ xs).

(** [s.endswith(t)] and [s.startswith(t)]. *)
Definition startswith (s t : string) : bool := String.prefix t s.

Definition endswith (s t : string) : bool :=
  let ls := String.length s in
  let lt := String.length t in
  ((lt <=? ls) && String.eqb (String.substring (ls - lt) lt s) t)%nat.

(** Zero padding of decimal digits to a minimum width. *)
Fixpoint zfill (width : nat) (digits : string) : string :=
  match width with
  | O => digits
  | S w =>
      if (String.length digits <? width)%nat
      then String "0" (zfill w digits)
      else digits
  end.

(** [f"{n:02d}"]: the sign counts towards the width. *)
Definition fmt_02d (n : Z) : string :=
  if n <? 0 then "-" +:+ zfill 1 (str_of_Z (- n)) else zfill 2 (str_of_Z n).

(** [f"{n:,}"]: a comma between groups of three digits. *)
Fixpoint commas_rev (rev_digits : list ascii) (k : nat) : list ascii :=
  match rev_digits with
  | [] => []
  | d :: ds =>
      if (k =? 3)%nat
      then ","%char :: d :: commas_rev ds 1
      else d :: commas_rev ds (S k)
  end.

Definition group_digits (digits : string) : string :=
  string_of_list_ascii
    (rev (commas_rev (rev (list_ascii_of_string digits)) 0)).

Definition fmt_comma (n : Z) : string :=
  if n <? 0 then "-" +:+ group_digits (str_of_Z (- n))
  else group_digits (str_of_Z n).

(** [f"{m//60}:{m%60:02d}"], as used for progress and duration. *)
Definition fmt_clock (secs : Z) : string :=
  str_of_Z (secs / 60) +:+ ":" +:+ fmt_02d (secs mod 60).

(** [max(a, b)] and [min(a, b)]: Python keeps the first argument unless
    the second is strictly better. *)
Definition py_max (a b : Z) : Z := if a <? b then b else a.
Definition py_min (a b : Z) : Z := if b <? a then b else a.

(** [posixpath.join(a, b)]. *)
Definition path_join (a b : string) : string :=
  if startswith b "/" then b
  else if String.eqb a "" || endswith a "/" then a +:+ b
  else a +:+ "/" +:+ b.

(** Truthiness of an optional string ([None] and [''] are falsy). *)
Definition truthy (o : option string) : bool :=
  match o with
  | Some s => negb (String.eqb s "")
  | None => false
  end.

(** ** Data returned by the service *)

(** An entry of [devices()['devices']]. *)
Record Device := {
  dev_id : string;
  dev_name : string;
  dev_type : string;
  dev_is_active : bool;
}.

(** An entry of a track's or album's ['artists']. *)
Record ArtistRef := { artist_name : string }.

Record Track := {
  track_name : string;
  track_artists : list ArtistRef;
  track_album_name : string;
  track_duration_ms : Z;
  track_uri : string;
}.

(** An artist as returned by a search. *)
Record Artist := {
  art_name : string;
  art_followers_total : Z;
  art_uri : string;
}.

Record Album := {
  album_name : string;
  album_artists : list ArtistRef;
  album_release_date : string;
  album_uri : string;
}.

(** The result of [current_playback()], when it is not [None]; the
    service documents ['item'] and ['progress_ms'] as nullable. *)
Record Playback := {
  pb_item : option Track;
  pb_progress_ms : option Z;
  pb_is_playing : bool;
  pb_device : option Device;
}.

Record SearchResults := {
  sr_tracks : list Track;
  sr_artists : list Artist;
  sr_albums : list Album;
}.

(** An entry of [current_user_playlists()['items']]. *)
Record PlaylistSummary := {
  pls_name : string;
  pls_tracks_total : Z;
  pls_uri : string;
}.

(** An entry of [playlist['tracks']['items']]; ['track'] may be null. *)
Record PlaylistItem := { item_track : option Track }.

Record Playlist := {
  pl_name : string;
  pl_items : list PlaylistItem;
}.

(** ** Exceptions and responses *)

(** A raised [Exception]; [exn_str] is what [str(e)] gives. *)
Record Exn := { exn_class : string; exn_str : string }.

Inductive Response (A : Type) : Type :=
| Ok (a : A)
| Err (e : Exn).

Arguments Ok {A} a.
Arguments Err {A} e.

Inductive SearchType := TypeTrack | TypeArtist | TypeAlbum.

Definition search_type_str (t : SearchType) : string :=
  match t with
  | TypeTrack => "track"
  | TypeArtist => "artist"
  | TypeAlbum => "album"
  end.

(** The [spotipy.Spotify] object, seen from the program: what each method
    the program calls answers.  No command calls the same method twice. *)
Record Spotify := {
  sp_devices : Response (list Device);
  sp_current_playback : Response (option Playback);
  sp_start_playback : option (list string) -> Response unit;
  sp_pause_playback : Response unit;
  sp_next_track : Response unit;
  sp_previous_track : Response unit;
  sp_search : string -> SearchType -> Z -> Response SearchResults;
  sp_current_user_playlists : Z -> Response (list PlaylistSummary);
  sp_playlist : string -> Response Playlist;
  sp_volume : Z -> Response unit;
  sp_current_user_top_tracks : Z -> string -> Response (list Track);
}.

(** ** Events *)

Inductive ApiCall :=
| ApiDevices
| ApiCurrentPlayback
| ApiStartPlayback (uris : option (list string))
| ApiPausePlayback
| ApiNextTrack
| ApiPreviousTrack
| ApiSearch (q : string) (type : SearchType) (limit : Z)
| ApiCurrentUserPlaylists (limit : Z)
| ApiPlaylist (playlist_id : string)
| ApiVolume (volume_percent : Z)
| ApiCurrentUserTopTracks (limit : Z) (time_range : string).

(** The arguments of [SpotifyOAuth(...)]. *)
Record OAuthConfig := {
  client_id : option string;
  client_secret : option string;
  redirect_uri : string;
  scope : string;
  cache_path : string;
}.

Inductive Event :=
| EvPrint (line : string)
| EvPrintHelp
| EvInput (prompt : string)
| EvWebbrowserOpen (url : string)
| EvNewClient (cfg : OAuthConfig)
| EvApi (c : ApiCall).

(** The method calls in a trace, in order. *)
Definition api_calls (tr : list Event) : list ApiCall :=
  omap (λ ev, match ev with EvApi c => Some c | _ => None end) tr.

Definition is_network (ev : Event) : bool :=
  match ev with EvNewClient _ | EvApi _ => true | _ => false end.

(** ** Computations *)

Inductive Outcome (A : Type) : Type :=
| Return (a : A)
| Raise (e : Exn)
| SysExit (status : Z).

Arguments Return {A} a.
Arguments Raise {A} e.
Arguments SysExit {A} status.

Definition Run (A : Type) : Type := list Event * Outcome A.

Definition run_ret {A} (a : A) : Run A := ([], Return a).

Definition run_bind {A B} (k : A -> Run B) (m : Run A) : Run B :=
  match m with
  | (tr, Return a) => let '(tr', o) := k a in (tr ++ tr', o)
  | (tr, Raise e) => (tr, Raise e)
  | (tr, SysExit st) => (tr, SysExit st)
  end.

#[global] Instance Run_ret : MRet Run := @run_ret.
#[global] Instance Run_bind : MBind Run := @run_bind.

Definition emit (ev : Event) : Run unit := ([ev], Return tt).

Definition print (line : string) : Run unit := emit (EvPrint line).

Definition webbrowser_open (url : string) : Run unit :=
  emit (EvWebbrowserOpen url).

(** [input(prompt)] with the line the user types. *)
Definition input (answer : string) (prompt : string) : Run string :=
  ([EvInput prompt], Return answer).

Definition sys_exit {A} (status : Z) : Run A := ([], SysExit status).

(** [raise e]. *)
Definition raise_exn {A} (e : Exn) : Run A := ([], Raise e).

(** What [None // n] raises. *)
Definition type_error_floordiv : Exn :=
  {| exn_class := "TypeError";
     exn_str := "unsupported operand type(s) for //: 'NoneType' and 'int'" |}.

(** [x // n] for a value [x] that may be [None]. *)
Definition floordiv (x : option Z) (n : Z) : Run Z :=
  match x with
  | Some v => mret (v / n)
  | None => raise_exn type_error_floordiv
  end.

(** A call of a client method. *)
Definition api {A} (c : ApiCall) (r : Response A) : Run A :=
  ([EvApi c],
   match r with
   | Ok a => Return a
   | Err e => Raise e
   end).

(** [try: body / except Exception as e: handler(e)]. *)
Definition try_except {A} (body : Run A) (handler : Exn -> Run A) : Run A :=
  match body with
  | (tr, Raise e) => let '(tr', o) := handler e in (tr ++ tr', o)
  | r => r
  end.

(** [for x in xs: body(x)]. *)
Fixpoint for_each {A} (body : A -> Run unit) (xs : list A) : Run unit :=
  match xs with
  | [] => mret tt
  | x :: xs' => body x ;; for_each body xs'
  end.

(** [for i, x in enumerate(xs, start): body(i, x)]. *)
Fixpoint for_enumerate {A} (body : Z -> A -> Run unit) (start : Z)
    (xs : list A) : Run unit :=
  match xs with
  | [] => mret tt
  | x :: xs' => body start x ;; for_enumerate body (start + 1) xs'
  end.

(** The exit status of the process when [main] ends in this way; an
    exception that reaches the top level ends the interpreter with 1. *)
Definition exit_code {A} (r : Run A) : Z :=
  match r.2 with
  | Return _ => 0
  | Raise _ => 1
  | SysExit st => st
  end.

(** ** The process *)

(** What the program reads from its surroundings.  [dotenv_files] maps
    the path of each existing dotenv file to the bindings it holds;
    [find_dotenv] is the path python-dotenv resolves when [load_dotenv()]
    is called without a path (the empty string when it finds none). *)
Record Process := {
  cwd : string;
  home : string;
  environ : gmap string string;
  dotenv_files : gmap string (gmap string string);
  find_dotenv : string;
}.

Definition with_environ (env : gmap string string) (p : Process) : Process :=
  {| cwd := cwd p; home := home p; environ := env;
     dotenv_files := dotenv_files p; find_dotenv := find_dotenv p |}.

Definition with_files (files : gmap string (gmap string string))
    (p : Process) : Process :=
  {| cwd := cwd p; home := home p; environ := environ p;
     dotenv_files := files; find_dotenv := find_dotenv p |}.

(** [os.getenv(key)] and [os.getenv(key, default)]. *)
Definition getenv (p : Process) (key : string) : option string :=
  environ p !! key.

Definition getenv_default (p : Process) (key default : string) : string :=
  match getenv p key with
  | Some v => v
  | None => default
  end.

(** [os.path.exists(rel)] for a path relative to the working directory. *)
Definition path_exists (p : Process) (rel : string) : bool :=
  bool_decide (is_Some (dotenv_files p !! path_join (cwd p) rel)).

(** [os.path.expanduser('~')] in the state [p] describes: [home p] is
    its value when the program starts. *)
Definition expanduser_home (p : Process) : string := home p.

(** [s.rstrip('/')]. *)
Fixpoint rstrip_slash (s : string) : string :=
  match s with
  | EmptyString => EmptyString
  | String c s' =>
      match rstrip_slash s' with
      | EmptyString =>
          if Ascii.eqb c "/" then EmptyString else String c EmptyString
      | r => String c r
      end
  end.

(** What [expanduser('~')] makes of a value of [HOME]. *)
Definition expanduser_of (userhome : string) : string :=
  let stripped := rstrip_slash userhome in
  if String.eqb stripped "" then "/" else stripped.

(** [load_dotenv(path)]: variables already set are kept. *)
Definition load_dotenv (p : Process) (path : string) : gmap string string :=
  match dotenv_files p !! path with
  | Some bindings => environ p ∪ bindings
  | None => environ p
  end.

(** The module-level statements (lines 16-21): the environment seen by
    the rest of the program. *)
Definition load_env (p : Process) : gmap string string :=
  if path_exists p ".env"
  then load_dotenv p (find_dotenv p)
  else load_dotenv p (path_join (expanduser_home p) ".spotify-cli.env").

(** [expanduser('~')] once the module-level statements have run.
    [expanduser] reads [HOME] from [os.environ]: a dotenv file cannot
    replace a [HOME] that was set, but it can set one that was not. *)
Definition home_after_load (p : Process) : string :=
  match environ p !! "HOME", load_env p !! "HOME" with
  | None, Some userhome => expanduser_of userhome
  | _, _ => home p
  end.

(** The process as [main] finds it. *)
Definition after_load (p : Process) : Process :=
  {| cwd := cwd p; home := home_after_load p; environ := load_env p;
     dotenv_files := dotenv_files p; find_dotenv := find_dotenv p |}.

(** [cache_path] of [SpotifyCLI.__init__]. *)
Definition cli_cache_path (p : Process) : string :=
  path_join (expanduser_home p) ".spotify-cli-cache".

Definition cli_scope : string :=
  "user-read-playback-state user-modify-playback-state user-read-currently-playing "
  +:+ "playlist-read-private playlist-modify-private playlist-modify-public "
  +:+ "user-library-read user-library-modify user-top-read".

Definition cli_config (p : Process) : OAuthConfig :=
  {| client_id := getenv p "SPOTIFY_CLIENT_ID";
     client_secret := getenv p "SPOTIFY_CLIENT_SECRET";
     redirect_uri :=
       getenv_default p "SPOTIFY_REDIRECT_URI" "http://localhost:8888/callback";
     scope := cli_scope;
     cache_path := cli_cache_path p |}.

(** [SpotifyCLI.__init__]. *)
Definition SpotifyCLI_init (p : Process) : Run unit :=
  emit (EvNewClient (cli_config p)).

(** ** The methods of [SpotifyCLI] *)

(** [', '.join([artist['name'] for artist in artists])]. *)
Definition artists_str (artists : list ArtistRef) : string :=
  py_join ", " (artist_name <$> artists).

Definition device_bullet (d : Device) : string :=
  "   • " +:+ dev_name d +:+ " (" +:+ dev_type d +:+ ")".

Definition no_devices_help : list string :=
  [ "❌ No Spotify devices found!";
    nl +:+ "💡 To use Spotify CLI, you need to:";
    "   1. Open Spotify Desktop App, or";
    "   2. Open Spotify on your phone, or";
    "   3. Open Spotify Web Player" ].

Definition open_prompt : string :=
  nl +:+ "🌐 Would you like to open Spotify Web Player? (y/n): ".

Definition web_player_url : string := "https://open.spotify.com".

Definition web_player_opened : string :=
  nl +:+ "✅ Web player opened! Wait a moment for it to load, then try your command again.".

Definition open_tip : string :=
  nl +:+ "💡 Tip: Use 'spotify play --open' to automatically open web player".

Definition none_active_header : string :=
  "⚠️  Spotify devices found but none are active:".

Definition none_active_advice : string :=
  nl +:+ "💡 Open Spotify on one of these devices and start playing something first.".

Definition error_line (e : Exn) : string := "❌ Error: " +:+ exn_str e.

Section SpotifyCLI.

Variable sp : Spotify.

(** The line typed at the prompt of [check_active_device]. *)
Variable answer : string.

Definition check_active_device (auto_open : bool) : Run bool :=
  devices ← api ApiDevices (sp_devices sp);
  match devices with
  | [] =>
      for_each print no_devices_help;;
      (if auto_open then
         response ← input answer open_prompt;
         if str_in (lower response) ["y"; "yes"] then
           webbrowser_open web_player_url;;
           print web_player_opened
         else mret tt
       else print open_tip);;
      mret false
  | _ :: _ =>
      let active_devices := filter (λ d, dev_is_active d = true) devices in
      match active_devices with
      | [] =>
          print none_active_header;;
          for_each (λ device, print (device_bullet device)) devices;;
          print none_active_advice;;
          mret false
      | _ :: _ => mret true
      end
  end.

Definition current_playback : Run unit :=
  current ← api ApiCurrentPlayback (sp_current_playback sp);
  match current ≫= (λ current, pair current <$> pb_item current) with
  | None => print "❌ Nothing is currently playing"
  | Some (current, track) =>
      let artists := artists_str (track_artists track) in
      progress ← floordiv (pb_progress_ms current) 1000;
      let duration := track_duration_ms track / 1000 in
      let is_playing := pb_is_playing current in
      print (nl +:+ "🎵 Now " +:+ (if is_playing then "Playing" else "Paused") +:+ ":");;
      print ("   Track: " +:+ track_name track);;
      print ("   Artist: " +:+ artists);;
      print ("   Album: " +:+ track_album_name track);;
      print ("   Progress: " +:+ fmt_clock progress +:+ " / " +:+ fmt_clock duration);;
      match pb_device current with
      | Some device => print ("   Device: " +:+ dev_name device)
      | None => mret tt
      end
  end.

Definition play (uri : option string) (auto_open : bool) : Run unit :=
  ready ← check_active_device auto_open;
  if negb ready then mret tt
  else
    try_except
      (if truthy uri then
         let uris := Some [default "" uri] in
         api (ApiStartPlayback uris) (sp_start_playback sp uris);;
         print "▶️  Playing track"
       else
         api (ApiStartPlayback None) (sp_start_playback sp None);;
         print "▶️  Playback resumed")
      (λ e, print (error_line e)).

Definition pause : Run unit :=
  try_except
    (api ApiPausePlayback (sp_pause_playback sp);;
     print "⏸️  Playback paused")
    (λ e, print (error_line e)).

Definition next_track : Run unit :=
  try_except
    (api ApiNextTrack (sp_next_track sp);;
     print "⏭️  Skipped to next track")
    (λ e, print (error_line e)).

Definition previous_track : Run unit :=
  try_except
    (api ApiPreviousTrack (sp_previous_track sp);;
     print "⏮️  Back to previous track")
    (λ e, print (error_line e)).

Definition track_result (i : Z) (track : Track) : Run unit :=
  let artists := artists_str (track_artists track) in
  print (str_of_Z i +:+ ". " +:+ track_name track +:+ " - " +:+ artists);;
  print ("   URI: " +:+ track_uri track +:+ nl).

Definition artist_result (i : Z) (artist : Artist) : Run unit :=
  print (str_of_Z i +:+ ". " +:+ art_name artist);;
  print ("   Followers: " +:+ fmt_comma (art_followers_total artist));;
  print ("   URI: " +:+ art_uri artist +:+ nl).

Definition album_result (i : Z) (album : Album) : Run unit :=
  let artists := artists_str (album_artists album) in
  print (str_of_Z i +:+ ". " +:+ album_name album +:+ " - " +:+ artists);;
  print ("   Release: " +:+ album_release_date album);;
  print ("   URI: " +:+ album_uri album +:+ nl).

Definition search (query : string) (type : SearchType) (limit : Z) : Run unit :=
  results ← api (ApiSearch query type limit) (sp_search sp query type limit);
  match type with
  | TypeTrack =>
      match sr_tracks results with
      | [] => print "❌ No tracks found"
      | tracks =>
          print (nl +:+ "🔍 Search results for '" +:+ query +:+ "':" +:+ nl);;
          for_enumerate track_result 1 tracks
      end
  | TypeArtist =>
      match sr_artists results with
      | [] => print "❌ No artists found"
      | artists =>
          print (nl +:+ "🔍 Artist results for '" +:+ query +:+ "':" +:+ nl);;
          for_enumerate artist_result 1 artists
      end
  | TypeAlbum =>
      match sr_albums results with
      | [] => print "❌ No albums found"
      | albums =>
          print (nl +:+ "🔍 Album results for '" +:+ query +:+ "':" +:+ nl);;
          for_enumerate album_result 1 albums
      end
  end.

Definition playlist_result (i : Z) (playlist : PlaylistSummary) : Run unit :=
  print (str_of_Z i +:+ ". " +:+ pls_name playlist);;
  print ("   Tracks: " +:+ str_of_Z (pls_tracks_total playlist));;
  print ("   URI: " +:+ pls_uri playlist +:+ nl).

Definition my_playlists (limit : Z) : Run unit :=
  playlists ← api (ApiCurrentUserPlaylists limit)
                  (sp_current_user_playlists sp limit);
  print (nl +:+ "📚 Your Playlists:" +:+ nl);;
  for_enumerate playlist_result 1 playlists.

(** The line of a playlist track, [f"{i}. {track['name']} - {artists}"]. *)
Definition track_line (i : Z) (track : Track) : string :=
  str_of_Z i +:+ ". " +:+ track_name track +:+ " - "
  +:+ artists_str (track_artists track).

Definition playlist_item (i : Z) (item : PlaylistItem) : Run unit :=
  let track := item_track item in
  match track with
  | Some track => print (track_line i track)
  | None => mret tt
  end.

Definition playlist_tracks (playlist_uri : string) : Run unit :=
  playlist ← api (ApiPlaylist playlist_uri) (sp_playlist sp playlist_uri);
  print (nl +:+ "📚 " +:+ pl_name playlist +:+ nl);;
  for_enumerate playlist_item 1 (pl_items playlist).

Definition volume (level : Z) : Run unit :=
  try_except
    (let level := py_max 0 (py_min 100 level) in
     api (ApiVolume level) (sp_volume sp level);;
     print ("🔊 Volume set to " +:+ str_of_Z level +:+ "%"))
    (λ e, print (error_line e)).

Definition device_entry (device : Device) : Run unit :=
  let active := if dev_is_active device then "✓" else " " in
  print ("[" +:+ active +:+ "] " +:+ dev_name device
         +:+ " (" +:+ dev_type device +:+ ")");;
  print ("    ID: " +:+ dev_id device +:+ nl).

Definition devices : Run unit :=
  devices ← api ApiDevices (sp_devices sp);
  match devices with
  | [] => print "❌ No devices found"
  | _ :: _ =>
      print (nl +:+ "📱 Available Devices:" +:+ nl);;
      for_each device_entry devices
  end.

(** [range_names.get(time_range, time_range)]. *)
Definition range_names : gmap string string :=
  {[ "short_term" := "Last 4 Weeks";
     "medium_term" := "Last 6 Months";
     "long_term" := "All Time" ]}.

Definition top_tracks (limit : Z) (time_range : string) : Run unit :=
  results ← api (ApiCurrentUserTopTracks limit time_range)
                (sp_current_user_top_tracks sp limit time_range);
  print (nl +:+ "🌟 Your Top Tracks ("
         +:+ default time_range (range_names !! time_range) +:+ "):" +:+ nl);;
  for_enumerate (λ i track, print (track_line i track)) 1 results.

End SpotifyCLI.

(** ** [main] *)

Inductive TimeRange := RangeShort | RangeMedium | RangeLong.

Definition range_str (r : TimeRange) : string :=
  match r with
  | RangeShort => "short"
  | RangeMedium => "medium"
  | RangeLong => "long"
  end.

(** The namespace [parse_args()] returns for each sub-command. *)
Inductive Command :=
| CmdNow
| CmdPlay (uri : option string) (open : bool)
| CmdPause
| CmdNext
| CmdPrev
| CmdVolume (level : Z)
| CmdSearch (query : string) (type : SearchType) (limit : Z)
| CmdPlaylists (limit : Z)
| CmdPlaylist (uri : string)
| CmdDevices
| CmdTop (limit : Z) (range : TimeRange).

(** [parser.parse_args()]: argparse either ends the process by itself or
    returns; [args.command] is [None] when no sub-command was given. *)
Inductive ParseResult :=
| ParseExit (status : Z)
| Parsed (command : option Command).

Definition credentials_help (p : Process) : list string :=
  [ "❌ Error: Spotify credentials not found!";
    nl +:+ "Create a .spotify-cli.env file in your home directory with:";
    "SPOTIFY_CLIENT_ID=your_client_id";
    "SPOTIFY_CLIENT_SECRET=your_client_secret";
    "SPOTIFY_REDIRECT_URI=http://localhost:8888/callback";
    nl +:+ "Location: " +:+ path_join (expanduser_home p) ".spotify-cli.env";
    nl +:+ "Get credentials at: https://developer.spotify.com/dashboard" ].

(** [not os.getenv('SPOTIFY_CLIENT_ID') or not os.getenv('SPOTIFY_CLIENT_SECRET')]. *)
Definition credentials_missing (p : Process) : bool :=
  negb (truthy (getenv p "SPOTIFY_CLIENT_ID"))
  || negb (truthy (getenv p "SPOTIFY_CLIENT_SECRET")).

Definition dispatch (sp : Spotify) (answer : string) (c : Command) : Run unit :=
  match c with
  | CmdNow => current_playback sp
  | CmdPlay uri open => play sp answer uri open
  | CmdPause => pause sp
  | CmdNext => next_track sp
  | CmdPrev => previous_track sp
  | CmdVolume level => volume sp level
  | CmdSearch query type limit => search sp query type limit
  | CmdPlaylists limit => my_playlists sp limit
  | CmdPlaylist uri => playlist_tracks sp uri
  | CmdDevices => devices sp
  | CmdTop limit range =>
      let time_range := range_str range +:+ "_term" in
      top_tracks sp limit time_range
  end.

Definition main (p : Process) (sp : Spotify) (answer : string)
    (parsed : ParseResult) : Run unit :=
  match parsed with
  | ParseExit status => sys_exit status
  | Parsed None => emit EvPrintHelp
  | Parsed (Some command) =>
      if credentials_missing p then
        for_each print (credentials_help p);;
        sys_exit 1
      else
        try_except
          (SpotifyCLI_init p;;
           dispatch sp answer command)
          (λ e, print (error_line e);; sys_exit 1)
  end.

(** The whole script: the module-level loading, then [main]. *)
Definition script (p : Process) (sp : Spotify) (answer : string)
    (parsed : ParseResult) : Run unit :=
  main (after_load p) sp answer parsed.

(** ** What each command calls *)

Definition response_error {A} (r : Response A) : option Exn :=
  match r with
  | Ok _ => None
  | Err e => Some e
  end.

(** The first method of the client a command calls. *)
Definition first_call (c : Command) : ApiCall :=
  match c with
  | CmdNow => ApiCurrentPlayback
  | CmdPlay _ _ => ApiDevices
  | CmdPause => ApiPausePlayback
  | CmdNext => ApiNextTrack
  | CmdPrev => ApiPreviousTrack
  | CmdVolume level => ApiVolume (Z.max 0 (Z.min 100 level))
  | CmdSearch query type limit => ApiSearch query type limit
  | CmdPlaylists limit => ApiCurrentUserPlaylists limit
  | CmdPlaylist uri => ApiPlaylist uri
  | CmdDevices => ApiDevices
  | CmdTop limit range => ApiCurrentUserTopTracks limit (range_str range +:+ "_term")
  end.

(** The exception, if any, that the first call of [now] or the division
    of a null [progress_ms] raises. *)
Definition now_error (sp : Spotify) : option Exn :=
  match sp_current_playback sp with
  | Err e => Some e
  | Ok current =>
      match current ≫= (λ current, pair current <$> pb_item current) with
      | Some (current, _) =>
          match pb_progress_ms current with
          | Some _ => None
          | None => Some type_error_floordiv
          end
      | None => None
      end
  end.

(** The exception, if any, raised in the method of a command outside
    every [try] block: by its first call or, for [now], by the division. *)
Definition unhandled_error (sp : Spotify) (c : Command) : option Exn :=
  match c with
  | CmdNow => now_error sp
  | CmdPlay _ _ => response_error (sp_devices sp)
  | CmdPause | CmdNext | CmdPrev | CmdVolume _ => None
  | CmdSearch query type limit => response_error (sp_search sp query type limit)
  | CmdPlaylists limit => response_error (sp_current_user_playlists sp limit)
  | CmdPlaylist uri => response_error (sp_playlist sp uri)
  | CmdDevices => response_error (sp_devices sp)
  | CmdTop limit range =>
      response_error
        (sp_current_user_top_tracks sp limit (range_str range +:+ "_term"))
  end.

(** Whether the service lists a device that is active. *)
Definition some_device_active (sp : Spotify) : bool :=
  match sp_devices sp with
  | Ok ds => existsb dev_is_active ds
  | Err _ => false
  end.

(** The [uris] argument [play] gives to [start_playback]. *)
Definition play_uris (uri : option string) : option (list string) :=
  if truthy uri then Some [default "" uri] else None.

Definition is_play (c : Command) : bool :=
  match c with CmdPlay _ _ => true | _ => false end.

(** Events that only write to the terminal. *)
Definition printed (ev : Event) : Prop :=
  match ev with EvPrint _ => True | _ => False end.

(** The events a command may produce: it prints and calls the client;
    it prompts only from the guard with [auto_open] and no device listed,
    and opens the browser only there and after a yes. *)
Definition command_event (sp : Spotify) (answer : string) (auto_open : bool)
    (ev : Event) : Prop :=
  match ev with
  | EvPrint _ | EvApi _ => True
  | EvInput prompt =>
      prompt = open_prompt ∧ auto_open = true ∧ sp_devices sp = Ok []
  | EvWebbrowserOpen url =>
      url = web_player_url ∧ auto_open = true ∧ sp_devices sp = Ok []
      ∧ str_in (lower answer) ["y"; "yes"] = true
  | EvNewClient _ | EvPrintHelp => False
  end.

(** The [--open] flag of a command. *)
Definition open_flag (c : Command) : bool :=
  match c with CmdPlay _ open => open | _ => false end.

Definition speaker : Device :=
  {| dev_id := "d3"; dev_name := "Speaker"; dev_type := "Speaker";
     dev_is_active := true |}.

(** ** What a playlist listing should show *)

(** The lines of the tracks of a playlist, read off the items: the item
    at position [k] (from 0) contributes the line numbered [k + 1] when
    its track is not null, and nothing otherwise. *)
Definition expected_track_lines (items : list PlaylistItem) : list string :=
  omap id (imap (λ k item, track_line (Z.of_nat k + 1) <$> item_track item)
             items).

(** ** Concrete inputs *)

Definition phone : Device :=
  {| dev_id := "d1"; dev_name := "Phone"; dev_type := "Smartphone";
     dev_is_active := false |}.

Definition laptop : Device :=
  {| dev_id := "d2"; dev_name := "Laptop"; dev_type := "Computer";
     dev_is_active := false |}.

Definition unauthorized : Exn :=
  {| exn_class := "SpotifyException";
     exn_str := "http status: 401, code: -1 - The access token expired" |}.

Definition song : Track :=
  {| track_name := "Song";
     track_artists := [ {| artist_name := "Ann" |}; {| artist_name := "Bob" |} ];
     track_album_name := "Album";
     track_duration_ms := 215000;
     track_uri := "spotify:track:1" |}.

Definition mixtape : Playlist :=
  {| pl_name := "Mixtape";
     pl_items := [ {| item_track := Some song |};
                   {| item_track := None |};
                   {| item_track := Some song |} ] |}.

(** A client whose every call succeeds, with the given devices. *)
Definition client_with (ds : list Device) : Spotify :=
  {| sp_devices := Ok ds;
     sp_current_playback := Ok None;
     sp_start_playback := λ _, Ok tt;
     sp_pause_playback := Ok tt;
     sp_next_track := Ok tt;
     sp_previous_track := Ok tt;
     sp_search := λ _ _ _,
       Ok {| sr_tracks := []; sr_artists := []; sr_albums := [] |};
     sp_current_user_playlists := λ _, Ok [];
     sp_playlist := λ _, Ok mixtape;
     sp_volume := λ _, Ok tt;
     sp_current_user_top_tracks := λ _ _, Ok [] |}.

(** A client whose every call raises. *)
Definition failing_client : Spotify :=
  {| sp_devices := Err unauthorized;
     sp_current_playback := Err unauthorized;
     sp_start_playback := λ _, Err unauthorized;
     sp_pause_playback := Err unauthorized;
     sp_next_track := Err unauthorized;
     sp_previous_track := Err unauthorized;
     sp_search := λ _ _ _, Err unauthorized;
     sp_current_user_playlists := λ _, Err unauthorized;
     sp_playlist := λ _, Err unauthorized;
     sp_volume := λ _, Err unauthorized;
     sp_current_user_top_tracks := λ _ _, Err unauthorized |}.

Definition home_dotenv : gmap string string :=
  {[ "SPOTIFY_CLIENT_ID" := "home-id"; "SPOTIFY_CLIENT_SECRET" := "home-secret" ]}.

Definition project_dotenv : gmap string string :=
  {[ "SPOTIFY_CLIENT_ID" := "project-id";
     "SPOTIFY_CLIENT_SECRET" := "project-secret" ]}.

Definition demo_files : gmap string (gmap string string) :=
  {[ "/home/u/.spotify-cli.env" := home_dotenv;
     "/work/project/.env" := project_dotenv ]}.

(** Started in a directory that holds a [.env]. *)
Definition in_project : Process :=
  {| cwd := "/work/project"; home := "/home/u"; environ := ∅;
     dotenv_files := demo_files; find_dotenv := "/work/project/.env" |}.

(** Started in the same directory, with the program installed elsewhere:
    python-dotenv, which looks from the directory of the script upwards,
    finds no [.env]. *)
Definition installed_in_project : Process :=
  {| cwd := "/work/project"; home := "/home/u"; environ := ∅;
     dotenv_files := demo_files; find_dotenv := "" |}.

(** Started elsewhere, by the same user. *)
Definition in_tmp : Process :=
  {| cwd := "/tmp"; home := "/home/u"; environ := ∅;
     dotenv_files := demo_files; find_dotenv := "" |}.

(** No credentials anywhere. *)
Definition bare_process : Process :=
  {| cwd := "/tmp"; home := "/home/u"; environ := ∅;
     dotenv_files := ∅; find_dotenv := "" |}.

(** Credentials in the environment. *)
Definition configured_process : Process :=
  with_environ home_dotenv bare_process.

(** A client with something to list. *)
Definition jukebox : Spotify :=
  {| sp_devices := Ok [phone; speaker];
     sp_current_playback := Ok None;
     sp_start_playback := λ _, Ok tt;
     sp_pause_playback := Ok tt;
     sp_next_track := Ok tt;
     sp_previous_track := Ok tt;
     sp_search := λ _ _ _,
       Ok {| sr_tracks := [song]; sr_artists := []; sr_albums := [] |};
     sp_current_user_playlists := λ _, Ok [];
     sp_playlist := λ _, Ok mixtape;
     sp_volume := λ _, Ok tt;
     sp_current_user_top_tracks := λ _ _, Ok [song; song] |}.

(** A client that reports an item whose progress is null. *)
Definition paused_without_progress : Spotify :=
  {| sp_devices := Ok [phone];
     sp_current_playback :=
       Ok (Some {| pb_item := Some song; pb_progress_ms := None;
                   pb_is_playing := false; pb_device := None |});
     sp_start_playback := λ _, Ok tt;
     sp_pause_playback := Ok tt;
     sp_next_track := Ok tt;
     sp_previous_track := Ok tt;
     sp_search := λ _ _ _,
       Ok {| sr_tracks := []; sr_artists := []; sr_albums := [] |};
     sp_current_user_playlists := λ _, Ok [];
     sp_playlist := λ _, Ok mixtape;
     sp_volume := λ _, Ok tt;
     sp_current_user_top_tracks := λ _ _, Ok [] |}.

(** The home-directory file sets [HOME], which the process had not. *)
Definition home_moved_by_dotenv : Process :=
  {| cwd := "/tmp"; home := "/home/u"; environ := ∅;
     dotenv_files :=
       {[ "/home/u/.spotify-cli.env" :=
            <["HOME" := "/srv/music/"]> home_dotenv ]};
     find_dotenv := "" |}.

(** Started in a third directory, where python-dotenv would find the
    [.env] of the project. *)
Definition in_opt : Process :=
  {| cwd := "/opt"; home := "/home/u"; environ := ∅;
     dotenv_files := demo_files; find_dotenv := "/work/project/.env" |}.

(** The id is set, to the empty string. *)
Definition empty_id_process : Process :=
  with_environ (<["SPOTIFY_CLIENT_ID" := ""]> home_dotenv) bare_process.

(** ** The definitions, on examples *)

Example fmt_02d_5 : fmt_02d 5 = "05".
Proof. reflexivity. Qed.

Example fmt_clock_125 : fmt_clock 125 = "2:05".
Proof. reflexivity. Qed.

Example fmt_comma_1234567 : fmt_comma 1234567 = "1,234,567".
Proof. reflexivity. Qed.

Example fmt_comma_999 : fmt_comma 999 = "999".
Proof. reflexivity. Qed.

Example lower_YES : lower "YeS" = "yes".
Proof. reflexivity. Qed.

Example path_join_home :
  path_join "/home/u" ".spotify-cli-cache" = "/home/u/.spotify-cli-cache".
Proof. reflexivity. Qed.

Example path_join_root : path_join "/" ".env" = "/.env".
Proof. reflexivity. Qed.

Example zfill_keeps_long : fmt_02d 123 = "123".
Proof. reflexivity. Qed.

Example play_resumes_on_active_device :
  play (client_with [phone; {| dev_id := "d3"; dev_name := "Speaker";
                               dev_type := "Speaker"; dev_is_active := true |}])
       "" None false =
    ([EvApi ApiDevices; EvApi (ApiStartPlayback None);
      EvPrint "▶️  Playback resumed"],
     Return tt).
Proof. reflexivity. Qed.

Example pause_reports_error :
  pause failing_client =
    ([EvApi ApiPausePlayback; EvPrint (error_line unauthorized)], Return tt).
Proof. reflexivity. Qed.

Example guard_declined :
  check_active_device (client_with []) "n" true =
    ([EvApi ApiDevices] ++ (EvPrint <$> no_devices_help)
       ++ [EvInput open_prompt],
     Return false).
Proof. reflexivity. Qed.

Example parse_exit_is_kept :
  exit_code (main bare_process failing_client "" (ParseExit 2)) = 2.
Proof. reflexivity. Qed.

(** ** Traces of loops *)

Ltac run_unfold :=
  unfold print, emit, api, input, webbrowser_open, sys_exit, try_except;
  cbn [mbind mret Run_bind Run_ret run_bind run_ret fst snd app].


Lemma for_each_print {A} (f : A -> string) (xs : list A) :
  for_each (λ x, print (f x)) xs = (EvPrint ∘ f <$> xs, Return tt).
Proof.
  induction xs as [|x xs IH]; [reflexivity|].
  cbn [for_each]. unfold mbind, Run_bind. rewrite IH. reflexivity.
Qed.

Lemma for_each_print_id (xs : list string) :
  for_each print xs = (EvPrint <$> xs, Return tt).
Proof.
  induction xs as [|x xs IH]; [reflexivity|].
  cbn [for_each]. unfold mbind, Run_bind. rewrite IH. reflexivity.
Qed.

Lemma api_calls_app (tr1 tr2 : list Event) :
  api_calls (tr1 ++ tr2) = api_calls tr1 ++ api_calls tr2.
Proof. unfold api_calls. apply omap_app. Qed.

Lemma api_calls_prints {A} (f : A -> string) (xs : list A) :
  api_calls (EvPrint ∘ f <$> xs) = [].
Proof. induction xs as [|x xs IH]; [reflexivity|]. cbn. exact IH. Qed.

Lemma prints_not_network (lines : list string) :
  Forall (λ ev, is_network ev = false) (EvPrint <$> lines).
Proof. induction lines; constructor; [reflexivity | assumption]. Qed.

Lemma filter_none_active (ds : list Device) :
  Forall (λ d, dev_is_active d = false) ds ->
  filter (λ d, dev_is_active d = true) ds = [].
Proof.
  induction 1 as [|d ds Hd _ IH]; [reflexivity|].
  rewrite filter_cons_False; [exact IH | congruence].
Qed.

(** ** Arithmetic of the volume clamp *)

Lemma py_max_spec (a b : Z) : py_max a b = Z.max a b.
Proof. unfold py_max. destruct (Z.ltb_spec a b); lia. Qed.

Lemma py_min_spec (a b : Z) : py_min a b = Z.min a b.
Proof. unfold py_min. destruct (Z.ltb_spec b a); lia. Qed.

Lemma clamp_range (level : Z) : 0 <= py_max 0 (py_min 100 level) <= 100.
Proof. rewrite py_max_spec, py_min_spec. lia. Qed.

Lemma clamp_in_range (level : Z) :
  0 <= level <= 100 -> py_max 0 (py_min 100 level) = level.
Proof. rewrite py_max_spec, py_min_spec. lia. Qed.

(** ** The device guard *)

Lemma check_active_device_none_active sp answer auto_open (ds : list Device) :
  sp_devices sp = Ok ds ->
  ds ≠ [] ->
  Forall (λ d, dev_is_active d = false) ds ->
  check_active_device sp answer auto_open =
    ([EvApi ApiDevices; EvPrint none_active_header]
       ++ (EvPrint ∘ device_bullet <$> ds)
       ++ [EvPrint none_active_advice],
     Return false).
Proof.
  intros Hds Hne Hoff. unfold check_active_device. rewrite Hds.
  destruct ds as [|d ds']; [congruence|].
  unfold api. cbn [mbind Run_bind run_bind].
  rewrite (filter_none_active _ Hoff), for_each_print.
  reflexivity.
Qed.

Lemma check_active_device_none_registered sp answer :
  sp_devices sp = Ok [] ->
  check_active_device sp answer true =
    ([EvApi ApiDevices] ++ (EvPrint <$> no_devices_help)
       ++ [EvInput open_prompt]
       ++ (if str_in (lower answer) ["y"; "yes"]
           then [EvWebbrowserOpen web_player_url; EvPrint web_player_opened]
           else []),
     Return false).
Proof.
  intros Hds. unfold check_active_device. rewrite Hds.
  run_unfold. destruct (str_in (lower answer) ["y"; "yes"]); reflexivity.
Qed.



(** C5. With [auto_open] set and no device registered, the guard asks
    whether to open the web player and opens it exactly when the answer
    is [y] or [yes] in any letter case; either way it returns [False], and
    [devices] is the only method of the client it calls, once. *)
Theorem guard_auto_open_still_fails sp answer :
  sp_devices sp = Ok [] ->
  (check_active_device sp answer true).2 = Return false
  ∧ api_calls (check_active_device sp answer true).1 = [ApiDevices]
  ∧ (EvWebbrowserOpen web_player_url ∈ (check_active_device sp answer true).1
     ↔ lower answer = "y" ∨ lower answer = "yes").
Proof.
  intros Hds. rewrite (check_active_device_none_registered sp answer Hds).
  cbn [fst snd]. split; [reflexivity|]. split.
  - destruct (str_in (lower answer) ["y"; "yes"]); reflexivity.
  - unfold str_in. case_bool_decide as Hans.
    + split; intros _.
      * apply elem_of_cons in Hans as [?|Hans]; [by left|].
        apply list_elem_of_singleton in Hans. by right.
      * cbn. rewrite !elem_of_cons. do 7 right. by left.
    + split.
      * cbn. rewrite !elem_of_cons. intros H.
        repeat (destruct H as [H|H]; [discriminate|]).
        by apply elem_of_nil in H.
      * intros [H|H]; exfalso; apply Hans; rewrite H;
          [by left | right; by left].
Qed.

Lemma guard_auto_open_witness :
  (check_active_device (client_with []) "Yes" true).2 = Return false
  ∧ EvWebbrowserOpen web_player_url
      ∈ (check_active_device (client_with []) "Yes" true).1.
Proof.
  destruct (guard_auto_open_still_fails (client_with []) "Yes" eq_refl)
    as (Hret & _ & Hopen).
  split; [exact Hret|]. apply Hopen. right. reflexivity.
Defined.

(** ** Volume *)

Lemma volume_trace sp (level : Z) :
  volume sp level =
    let sent := py_max 0 (py_min 100 level) in
    match sp_volume sp sent with
    | Ok _ =>
        ([EvApi (ApiVolume sent);
          EvPrint ("🔊 Volume set to " +:+ str_of_Z sent +:+ "%")],
         Return tt)
    | Err e => ([EvApi (ApiVolume sent); EvPrint (error_line e)], Return tt)
    end.
Proof.
  unfold volume. cbv zeta. run_unfold.
  destruct (sp_volume sp (py_max 0 (py_min 100 level))); reflexivity.
Qed.

(** C2. Whatever integer [level] is given, the one call [volume] makes
    sends [max(0, min(100, level))]: [level] itself when it lies in
    [0, 100], 0 below and 100 above; so -5 is sent as 0, 150 as 100 and 50
    as 50.  The call is made whether or not the service accepts it. *)
Theorem volume_sends_clamped_level sp (level : Z) :
  api_calls (volume sp level).1 = [ApiVolume (Z.max 0 (Z.min 100 level))]
  ∧ Z.max 0 (Z.min 100 level) =
      (if level <? 0 then 0 else if 100 <? level then 100 else level)
  ∧ api_calls (volume sp (-5)).1 = [ApiVolume 0]
  ∧ api_calls (volume sp 150).1 = [ApiVolume 100]
  ∧ api_calls (volume sp 50).1 = [ApiVolume 50].
Proof.
  assert (Hsent : ∀ l,
    api_calls (volume sp l).1 = [ApiVolume (Z.max 0 (Z.min 100 l))]).
  { intros l. rewrite volume_trace. cbv zeta.
    rewrite py_max_spec, py_min_spec.
    destruct (sp_volume sp (Z.max 0 (Z.min 100 l))); reflexivity. }
  split; [apply Hsent|]. split.
  - destruct (Z.ltb_spec level 0); [lia|].
    destruct (Z.ltb_spec 100 level); lia.
  - rewrite !Hsent. repeat split; reflexivity.
Qed.

(** ** [main] *)

Lemma main_missing_credentials p sp answer (c : Command) :
  credentials_missing p = true ->
  main p sp answer (Parsed (Some c)) =
    (EvPrint <$> credentials_help p, SysExit 1).
Proof.
  intros Hmiss. unfold main. rewrite Hmiss.
  rewrite for_each_print_id. run_unfold. rewrite app_nil_r. reflexivity.
Qed.

Lemma main_with_credentials p sp answer (c : Command) :
  credentials_missing p = false ->
  main p sp answer (Parsed (Some c)) =
    try_except
      (SpotifyCLI_init p;; dispatch sp answer c)
      (λ e, print (error_line e);; sys_exit 1).
Proof. intros Hcred. unfold main. rewrite Hcred. reflexivity. Qed.

Lemma unset_is_missing p :
  getenv p "SPOTIFY_CLIENT_ID" = None ∨ getenv p "SPOTIFY_CLIENT_SECRET" = None ->
  credentials_missing p = true.
Proof.
  unfold credentials_missing. intros [H|H]; rewrite H; cbn [truthy negb].
  - reflexivity.
  - apply orb_true_r.
Qed.

(** C3. When a sub-command was parsed and [SPOTIFY_CLIENT_ID] or
    [SPOTIFY_CLIENT_SECRET] is unset, [main] prints seven lines, the error
    ("Spotify credentials not found!"), the three variables to put in
    [~/.spotify-cli.env], the location of that file and where to get
    credentials, and calls [sys.exit(1)]: these prints are all that
    happens, the client is not constructed and no method of it is called.
    This is so for every sub-command with every argument, every client and
    every answer at the prompt. *)
Theorem missing_credentials_exit_1 p sp answer (c : Command) :
  getenv p "SPOTIFY_CLIENT_ID" = None ∨ getenv p "SPOTIFY_CLIENT_SECRET" = None ->
  main p sp answer (Parsed (Some c)) =
    ([EvPrint "❌ Error: Spotify credentials not found!";
      EvPrint "
Create a .spotify-cli.env file in your home directory with:";
      EvPrint "SPOTIFY_CLIENT_ID=your_client_id";
      EvPrint "SPOTIFY_CLIENT_SECRET=your_client_secret";
      EvPrint "SPOTIFY_REDIRECT_URI=http://localhost:8888/callback";
      EvPrint ("
Location: " +:+ path_join (home p) ".spotify-cli.env");
      EvPrint "
Get credentials at: https://developer.spotify.com/dashboard"],
     SysExit 1)
  ∧ exit_code (main p sp answer (Parsed (Some c))) = 1
  ∧ Forall (λ ev, is_network ev = false)
      (main p sp answer (Parsed (Some c))).1.
Proof.
  intros Hunset. apply unset_is_missing in Hunset.
  rewrite (main_missing_credentials p sp answer c Hunset).
  split; [reflexivity|]. split; [reflexivity|].
  cbn [fst]. apply prints_not_network.
Qed.

Lemma missing_credentials_witness :
  main bare_process (client_with [phone]) "" (Parsed (Some (CmdVolume 50))) =
    ([EvPrint "❌ Error: Spotify credentials not found!";
      EvPrint "
Create a .spotify-cli.env file in your home directory with:";
      EvPrint "SPOTIFY_CLIENT_ID=your_client_id";
      EvPrint "SPOTIFY_CLIENT_SECRET=your_client_secret";
      EvPrint "SPOTIFY_REDIRECT_URI=http://localhost:8888/callback";
      EvPrint "
Location: /home/u/.spotify-cli.env";
      EvPrint "
Get credentials at: https://developer.spotify.com/dashboard"],
     SysExit 1)
  ∧ exit_code (main bare_process (client_with [phone]) ""
                 (Parsed (Some (CmdVolume 50)))) = 1.
Proof.
  destruct (missing_credentials_exit_1 bare_process (client_with [phone]) ""
              (CmdVolume 50) (or_introl eq_refl)) as (Htrace & Hexit & _).
  split; [exact Htrace | exact Hexit].
Defined.

(** C4. With credentials configured, when the service lists no device the
    [devices] command constructs the client, calls [devices] once, prints
    the no-devices line and nothing else, calls no other method, and the
    process ends with status 0. *)
Theorem devices_empty_prints_no_devices p sp answer :
  credentials_missing p = false ->
  sp_devices sp = Ok [] ->
  main p sp answer (Parsed (Some CmdDevices)) =
    ([EvNewClient (cli_config p); EvApi ApiDevices;
      EvPrint "❌ No devices found"],
     Return tt)
  ∧ api_calls (main p sp answer (Parsed (Some CmdDevices))).1 = [ApiDevices]
  ∧ exit_code (main p sp answer (Parsed (Some CmdDevices))) = 0.
Proof.
  intros Hcred Hds.
  assert (Hmain : main p sp answer (Parsed (Some CmdDevices)) =
    ([EvNewClient (cli_config p); EvApi ApiDevices;
      EvPrint "❌ No devices found"], Return tt)).
  { rewrite (main_with_credentials p sp answer CmdDevices Hcred).
    cbn [dispatch]. unfold devices, SpotifyCLI_init. rewrite Hds.
    reflexivity. }
  rewrite Hmain. repeat split; reflexivity.
Qed.

Lemma devices_empty_witness :
  main configured_process (client_with []) "" (Parsed (Some CmdDevices)) =
    ([EvNewClient (cli_config configured_process); EvApi ApiDevices;
      EvPrint "❌ No devices found"],
     Return tt).
Proof.
  apply (devices_empty_prints_no_devices configured_process (client_with []) "").
  - vm_compute. reflexivity.
  - reflexivity.
Defined.

(** C8. When no sub-command is given, [main] prints the usage and
    returns, so the process ends with status 0; the environment is not
    looked at, so this is also what happens when the credentials are
    absent, where a sub-command would end with status 1. *)
Theorem no_command_prints_usage_exit_0 p sp answer :
  main p sp answer (Parsed None) = ([EvPrintHelp], Return tt)
  ∧ exit_code (main p sp answer (Parsed None)) = 0
  ∧ main bare_process sp answer (Parsed None) = ([EvPrintHelp], Return tt)
  ∧ credentials_missing bare_process = true.
Proof. repeat split; reflexivity. Qed.

(** ** Loops over [enumerate] *)

Lemma for_enumerate_returns {A} (body : Z -> A -> Run unit) (start : Z)
    (xs : list A) :
  (∀ i x, (body i x).2 = Return tt) ->
  for_enumerate body start xs =
    (mjoin (imap (λ k x, (body (start + Z.of_nat k) x).1) xs), Return tt).
Proof.
  intros Hbody. revert start.
  induction xs as [|x xs IH]; intros start; [reflexivity|].
  cbn [for_enumerate]. unfold mbind, Run_bind.
  specialize (Hbody start x). destruct (body start x) as [tr o] eqn:Hb.
  cbn in Hbody. subst o. cbn [run_bind]. rewrite IH.
  rewrite imap_cons. cbn [mjoin list_join]. rewrite Z.add_0_r, Hb. cbn [fst].
  do 3 f_equal. apply imap_ext. intros k y _. cbn.
  replace (start + 1 + Z.of_nat k) with (start + Z.of_nat (S k)) by lia.
  reflexivity.
Qed.

Lemma playlist_result_returns (i : Z) (pl : PlaylistSummary) :
  (playlist_result i pl).2 = Return tt.
Proof. reflexivity. Qed.

Lemma playlist_item_returns (i : Z) (item : PlaylistItem) :
  (playlist_item i item).2 = Return tt.
Proof. unfold playlist_item. destruct (item_track item); reflexivity. Qed.

Lemma playlist_item_lines (start : nat) (items : list PlaylistItem) :
  mjoin (imap (λ k item,
          (playlist_item (Z.of_nat start + 1 + Z.of_nat k) item).1) items) =
  EvPrint <$>
    omap id (imap (λ k item,
               track_line (Z.of_nat (start + k) + 1) <$> item_track item)
             items).
Proof.
  revert start. induction items as [|item items IH]; intros start;
    [reflexivity|].
  rewrite !imap_cons. cbn [mjoin list_join omap list_omap].
  rewrite (imap_ext _ (λ k item,
      (playlist_item (Z.of_nat (S start) + 1 + Z.of_nat k) item).1)).
  2:{ intros k y _. cbn.
      replace (Z.of_nat start + 1 + Z.of_nat (S k))
        with (Z.of_nat (S start) + 1 + Z.of_nat k) by lia.
      reflexivity. }
  rewrite IH.
  rewrite (imap_ext
    (λ k item, track_line (Z.of_nat (S start + k) + 1) <$> item_track item)
    ((λ k item, track_line (Z.of_nat (start + k) + 1) <$> item_track item)
       ∘ S)).
  2:{ intros k y _. cbn.
      replace (Z.of_nat (S (start + k))) with (Z.of_nat (start + S k)) by lia.
      reflexivity. }
  unfold playlist_item at 1.
  replace (Z.of_nat start + 1 + Z.of_nat 0) with (Z.of_nat (start + 0) + 1)
    by lia.
  destruct (item_track item); reflexivity.
Qed.

(** ** Playlists *)

Lemma my_playlists_ok sp (limit : Z) (playlists : list PlaylistSummary) :
  sp_current_user_playlists sp limit = Ok playlists ->
  my_playlists sp limit =
    ([EvApi (ApiCurrentUserPlaylists limit);
      EvPrint (nl +:+ "📚 Your Playlists:" +:+ nl)]
       ++ mjoin (imap (λ k pl, (playlist_result (1 + Z.of_nat k) pl).1)
                   playlists),
     Return tt).
Proof.
  intros Hok. unfold my_playlists. rewrite Hok.
  unfold api. cbn [mbind Run_bind run_bind].
  rewrite (for_enumerate_returns _ _ _ playlist_result_returns).
  reflexivity.
Qed.

Lemma my_playlists_err sp (limit : Z) (e : Exn) :
  sp_current_user_playlists sp limit = Err e ->
  my_playlists sp limit = ([EvApi (ApiCurrentUserPlaylists limit)], Raise e).
Proof. intros Herr. unfold my_playlists. rewrite Herr. reflexivity. Qed.

(** C6, as the claim states it, fails: with credentials configured and a
    client whose [current_user_playlists] raises, the [playlists] command
    prints the error line and the process ends with status 1, not 0. *)
Lemma playlists_api_error_exits_1 :
  credentials_missing configured_process = false
  ∧ sp_current_user_playlists failing_client 20 = Err unauthorized
  ∧ main configured_process failing_client "" (Parsed (Some (CmdPlaylists 20))) =
      ([EvNewClient (cli_config configured_process);
        EvApi (ApiCurrentUserPlaylists 20);
        EvPrint (error_line unauthorized)],
       SysExit 1)
  ∧ exit_code
      (main configured_process failing_client "" (Parsed (Some (CmdPlaylists 20))))
    ≠ 0.
Proof. repeat split; try reflexivity. vm_compute. discriminate. Qed.

(** C6, amended.  With credentials configured, the [playlists] command
    ends with status 0 when [current_user_playlists] returns: the listing
    is printed.  When the call raises, [my_playlists] does not catch the
    exception; the handler of [main] prints it as one error line and calls
    [sys.exit(1)], so the process ends with status 1. *)
Theorem playlists_exit_status p sp answer (limit : Z) :
  credentials_missing p = false ->
  match sp_current_user_playlists sp limit with
  | Ok playlists =>
      main p sp answer (Parsed (Some (CmdPlaylists limit))) =
        ([EvNewClient (cli_config p);
          EvApi (ApiCurrentUserPlaylists limit);
          EvPrint (nl +:+ "📚 Your Playlists:" +:+ nl)]
           ++ mjoin (imap (λ k pl, (playlist_result (1 + Z.of_nat k) pl).1)
                       playlists),
         Return tt)
      ∧ exit_code (main p sp answer (Parsed (Some (CmdPlaylists limit)))) = 0
  | Err e =>
      main p sp answer (Parsed (Some (CmdPlaylists limit))) =
        ([EvNewClient (cli_config p);
          EvApi (ApiCurrentUserPlaylists limit);
          EvPrint (error_line e)],
         SysExit 1)
      ∧ exit_code (main p sp answer (Parsed (Some (CmdPlaylists limit)))) = 1
  end.
Proof.
  intros Hcred.
  rewrite (main_with_credentials p sp answer (CmdPlaylists limit) Hcred).
  cbn [dispatch].
  destruct (sp_current_user_playlists sp limit) as [playlists|e] eqn:Hresp.
  - rewrite (my_playlists_ok sp limit playlists Hresp).
    split; reflexivity.
  - rewrite (my_playlists_err sp limit e Hresp).
    split; reflexivity.
Qed.

Lemma playlists_exit_status_witness :
  exit_code
    (main configured_process (client_with []) "" (Parsed (Some (CmdPlaylists 20))))
  = 0.
Proof.
  pose proof (playlists_exit_status configured_process (client_with []) "" 20
                eq_refl) as H.
  cbn [client_with sp_current_user_playlists] in H.
  exact (proj2 H).
Defined.

(** C10. When [playlist] returns, [playlist_tracks] prints the title and
    then one line per item whose track is not null, in the order of the
    items, each numbered with the 1-based position of its item among all
    the items; an item whose track is null prints nothing, its fields are
    not read, and the method returns normally. *)
Theorem playlist_tracks_skips_null_tracks sp (uri : string) (playlist : Playlist) :
  sp_playlist sp uri = Ok playlist ->
  playlist_tracks sp uri =
    ([EvApi (ApiPlaylist uri);
      EvPrint (nl +:+ "📚 " +:+ pl_name playlist +:+ nl)]
       ++ (EvPrint <$> expected_track_lines (pl_items playlist)),
     Return tt).
Proof.
  intros Hok. unfold playlist_tracks. rewrite Hok.
  unfold api. cbn [mbind Run_bind run_bind].
  rewrite (for_enumerate_returns _ _ _ playlist_item_returns).
  pose proof (playlist_item_lines 0 (pl_items playlist)) as Hlines.
  cbn [Z.of_nat Z.add Nat.add] in Hlines.
  unfold expected_track_lines. rewrite <- Hlines. reflexivity.
Qed.

Lemma playlist_tracks_witness :
  playlist_tracks (client_with []) "spotify:playlist:1" =
    ([EvApi (ApiPlaylist "spotify:playlist:1");
      EvPrint (nl +:+ "📚 Mixtape" +:+ nl);
      EvPrint "1. Song - Ann, Bob";
      EvPrint "3. Song - Ann, Bob"],
     Return tt).
Proof.
  exact (playlist_tracks_skips_null_tracks (client_with [])
           "spotify:playlist:1" mixtape eq_refl).
Defined.

(** A line is expected exactly when it is the line of a non-null track,
    numbered by the position of its item. *)
Lemma expected_track_lines_elem (items : list PlaylistItem) (line : string) :
  line ∈ expected_track_lines items
  ↔ ∃ (k : nat) (item : PlaylistItem) (track : Track),
      items !! k = Some item
      ∧ item_track item = Some track
      ∧ line = track_line (Z.of_nat k + 1) track.
Proof.
  unfold expected_track_lines. rewrite list_elem_of_omap. split.
  - intros (o & Hin & Ho). cbn in Ho. subst o.
    apply list_elem_of_lookup in Hin as (k & Hk).
    rewrite list_lookup_imap in Hk.
    destruct (items !! k) as [item|] eqn:Hitem; [|discriminate].
    cbn in Hk. destruct (item_track item) as [track|] eqn:Htrack;
      [|discriminate].
    exists k, item, track. cbn in Hk. by simplify_eq.
  - intros (k & item & track & Hitem & Htrack & ->).
    exists (Some (track_line (Z.of_nat k + 1) track)). split; [|reflexivity].
    apply list_elem_of_lookup. exists k.
    rewrite list_lookup_imap, Hitem. cbn. by rewrite Htrack.
Qed.

(** Playlists whose tracks are all null list nothing. *)
Lemma expected_track_lines_all_null (items : list PlaylistItem) :
  Forall (λ item, item_track item = None) items ->
  expected_track_lines items = [].
Proof.
  intros Hnull. destruct (expected_track_lines items) as [|line rest] eqn:E;
    [reflexivity|].
  assert (Hin : line ∈ expected_track_lines items) by (rewrite E; left).
  apply expected_track_lines_elem in Hin as (k & item & track & Hk & Ht & _).
  rewrite Forall_lookup in Hnull. specialize (Hnull k item Hk). congruence.
Qed.

(** ** Paths *)

Lemma length_append (x y : string) :
  String.length (x +:+ y) = (String.length x + String.length y)%nat.
Proof.
  induction x as [|c x IH]; [reflexivity|].
  change (S (String.length (x +:+ y)) = S (String.length x + String.length y)).
  by rewrite IH.
Qed.

Lemma append_assoc (x y z : string) : (x +:+ y) +:+ z = x +:+ (y +:+ z).
Proof.
  induction x as [|c x IH]; [reflexivity|].
  change (String c ((x +:+ y) +:+ z) = String c (x +:+ (y +:+ z))).
  by rewrite IH.
Qed.

(** Two strings that end with tails of the same length have the same
    heads and the same tails. *)
Lemma append_inj_tail (x y s t : string) :
  String.length s = String.length t ->
  x +:+ s = y +:+ t ->
  x = y ∧ s = t.
Proof.
  intros Hlen. revert y.
  induction x as [|c x IH]; intros [|d y] Heq.
  - by split.
  - apply (f_equal String.length) in Heq.
    rewrite !length_append in Heq. cbn in Heq. lia.
  - apply (f_equal String.length) in Heq.
    rewrite !length_append in Heq. cbn in Heq. lia.
  - change (String c (x +:+ s) = String d (y +:+ t)) in Heq.
    injection Heq as -> Heq. destruct (IH y Heq) as [-> ->]. by split.
Qed.

Lemma substring_after (x t : string) (n : nat) :
  String.substring (String.length x) n (x +:+ t) = String.substring 0 n t.
Proof. induction x as [|c x IH]; [reflexivity | exact IH]. Qed.

Lemma endswith_append_char (x : string) (c d : ascii) :
  c ≠ d -> endswith (x +:+ String c "") (String d "") = false.
Proof.
  intros Hne. unfold endswith. rewrite length_append. cbn [String.length].
  replace (String.length x + 1 - 1)%nat with (String.length x) by lia.
  rewrite substring_after.
  apply andb_false_iff. right. apply String.eqb_neq.
  cbn [String.substring]. congruence.
Qed.

(** [path_join a ".env"] either is [".env"] or ends with ["/.env"]. *)
Lemma path_join_env (a : string) :
  path_join a ".env" = ".env"
  ∨ (∃ x, path_join a ".env" = x +:+ "/.env")
  ∨ (path_join a ".env" = a +:+ ".env" ∧ endswith a "/" = true).
Proof.
  unfold path_join. cbn [startswith String.prefix].
  destruct (String.eqb_spec a "") as [->|Hne]; cbn [orb].
  - left. reflexivity.
  - destruct (endswith a "/") eqn:Hend.
    + right. right. by split.
    + right. left. by exists a.
Qed.

Lemma path_join_home_env (h : string) :
  ∃ y, path_join h ".spotify-cli.env" = (y +:+ "i") +:+ ".env"
       ∧ ∃ z, y +:+ "i" = z +:+ "-cli".
Proof.
  unfold path_join. cbn [startswith String.prefix].
  destruct (String.eqb h "" || endswith h "/").
  - exists (h +:+ ".spotify-cl"). split.
    + by rewrite !append_assoc.
    + exists (h +:+ ".spotify"). by rewrite !append_assoc.
  - exists (h +:+ "/.spotify-cl"). split.
    + by rewrite !append_assoc.
    + exists (h +:+ "/.spotify"). by rewrite !append_assoc.
Qed.

(** The [.env] of a directory is never the home-directory file. *)
Lemma env_path_ne_home_path (a h : string) :
  path_join a ".env" ≠ path_join h ".spotify-cli.env".
Proof.
  destruct (path_join_home_env h) as (y & Hy & _). rewrite Hy.
  destruct (path_join_env a) as [Ha|[(x & Ha)|[Ha Hend]]]; rewrite Ha;
    intros Heq.
  - apply (f_equal String.length) in Heq. rewrite !length_append in Heq.
    cbn in Heq. lia.
  - rewrite append_assoc in Heq.
    apply append_inj_tail in Heq as [_ Heq]; [discriminate | reflexivity].
  - apply append_inj_tail in Heq as [-> _]; [|reflexivity].
    rewrite endswith_append_char in Hend; [discriminate|].
    discriminate.
Qed.

(** ** Configuration loading *)

Lemma load_env_with_dotenv (p : Process) :
  is_Some (dotenv_files p !! path_join (cwd p) ".env") ->
  load_env p = load_dotenv p (find_dotenv p).
Proof.
  intros Hfile. unfold load_env, path_exists.
  by rewrite bool_decide_eq_true_2.
Qed.

Lemma load_env_without_dotenv (p : Process) :
  dotenv_files p !! path_join (cwd p) ".env" = None ->
  load_env p = load_dotenv p (path_join (home p) ".spotify-cli.env").
Proof.
  intros Hfile. unfold load_env, path_exists.
  rewrite bool_decide_eq_false_2; [reflexivity|].
  rewrite Hfile. by intros [? ?].
Qed.

Lemma home_path_not_empty (h : string) :
  path_join h ".spotify-cli.env" ≠ "".
Proof.
  destruct (path_join_home_env h) as (y & Hy & _). rewrite Hy. intros Heq.
  apply (f_equal String.length) in Heq. rewrite !length_append in Heq.
  cbn in Heq. lia.
Qed.

(** With a [.env] in the working directory the home-directory file is
    never read: python-dotenv looks for files named [.env] only, so
    whatever is done to [~/.spotify-cli.env] leaves the environment as it
    was. *)
Lemma home_file_ignored_with_cwd_dotenv (p : Process)
    (files' : gmap string (gmap string string)) :
  is_Some (dotenv_files p !! path_join (cwd p) ".env") ->
  find_dotenv p = "" ∨ (∃ dir, find_dotenv p = path_join dir ".env") ->
  (∀ path, path ≠ path_join (home p) ".spotify-cli.env" ->
           files' !! path = dotenv_files p !! path) ->
  load_env (with_files files' p) = load_env p.
Proof.
  intros Hfile Hfind Hsame.
  assert (Hne : find_dotenv p ≠ path_join (home p) ".spotify-cli.env").
  { destruct Hfind as [->|[dir ->]].
    - intros Heq. by apply (home_path_not_empty (home p)).
    - apply env_path_ne_home_path. }
  assert (Hsome : is_Some (dotenv_files (with_files files' p)
                             !! path_join (cwd (with_files files' p)) ".env")).
  { change (is_Some (files' !! path_join (cwd p) ".env")).
    rewrite Hsame; [exact Hfile | apply env_path_ne_home_path]. }
  rewrite (load_env_with_dotenv _ Hsome), (load_env_with_dotenv _ Hfile).
  unfold load_dotenv.
  change (dotenv_files (with_files files' p)) with files'.
  change (find_dotenv (with_files files' p)) with (find_dotenv p).
  change (environ (with_files files' p)) with (environ p).
  by rewrite (Hsame _ Hne).
Qed.

(** C9. The claim, like the comment at line 17, has the [.env] of the
    working directory loaded.  The code tests for that file and then calls
    [load_dotenv()] without a path, which reads what python-dotenv finds
    from the directory of the script.  At [installed_in_project] the
    working directory holds a [.env] with both credentials, and so does
    [~/.spotify-cli.env], but the program is installed elsewhere: neither
    file is loaded, and every command ends with the configuration help and
    status 1.  The same user, started in [/tmp], gets the credentials of
    the home-directory file; the cache path is the same in both. *)
Theorem cwd_dotenv_checked_but_not_loaded sp answer (c : Command) :
  path_exists installed_in_project ".env" = true
  ∧ dotenv_files installed_in_project !! "/work/project/.env"
      = Some project_dotenv
  ∧ dotenv_files installed_in_project !! "/home/u/.spotify-cli.env"
      = Some home_dotenv
  ∧ load_env installed_in_project = ∅
  ∧ script installed_in_project sp answer (Parsed (Some c)) =
      ([EvPrint "❌ Error: Spotify credentials not found!";
        EvPrint "
Create a .spotify-cli.env file in your home directory with:";
        EvPrint "SPOTIFY_CLIENT_ID=your_client_id";
        EvPrint "SPOTIFY_CLIENT_SECRET=your_client_secret";
        EvPrint "SPOTIFY_REDIRECT_URI=http://localhost:8888/callback";
        EvPrint "
Location: /home/u/.spotify-cli.env";
        EvPrint "
Get credentials at: https://developer.spotify.com/dashboard"],
       SysExit 1)
  ∧ exit_code (script installed_in_project sp answer (Parsed (Some c))) = 1
  ∧ load_env in_tmp !! "SPOTIFY_CLIENT_ID" = Some "home-id"
  ∧ cache_path (cli_config (after_load installed_in_project)) =
      "/home/u/.spotify-cli-cache"
  ∧ cache_path (cli_config (after_load in_tmp)) =
      "/home/u/.spotify-cli-cache".
Proof.
  assert (Hmissing : credentials_missing (after_load installed_in_project)
                     = true) by reflexivity.
  pose proof (main_missing_credentials (after_load installed_in_project)
                sp answer c Hmissing) as Hrun.
  repeat split; try reflexivity; unfold script; by rewrite Hrun.
Qed.

(** ** The whole script *)

(** The commands that handle their own errors call the client once, and
    return whether or not the call raised. *)
Lemma pause_calls_once sp :
  api_calls (pause sp).1 = [ApiPausePlayback] ∧ (pause sp).2 = Return tt.
Proof. unfold pause. run_unfold. destruct (sp_pause_playback sp) as [[]|e]; by split. Qed.

Lemma next_track_calls_once sp :
  api_calls (next_track sp).1 = [ApiNextTrack] ∧ (next_track sp).2 = Return tt.
Proof. unfold next_track. run_unfold. destruct (sp_next_track sp) as [[]|e]; by split. Qed.

Lemma previous_track_calls_once sp :
  api_calls (previous_track sp).1 = [ApiPreviousTrack]
  ∧ (previous_track sp).2 = Return tt.
Proof.
  unfold previous_track. run_unfold.
  destruct (sp_previous_track sp) as [[]|e]; by split.
Qed.

Example script_in_project_uses_project_credentials :
  script in_project (client_with []) "" (Parsed (Some CmdDevices)) =
    ([EvNewClient
        {| client_id := Some "project-id";
           client_secret := Some "project-secret";
           redirect_uri := "http://localhost:8888/callback";
           scope := cli_scope;
           cache_path := "/home/u/.spotify-cli-cache" |};
      EvApi ApiDevices;
      EvPrint "❌ No devices found"],
     Return tt).
Proof. reflexivity. Qed.

Example script_in_tmp_uses_home_credentials :
  script in_tmp (client_with []) "" (Parsed (Some CmdDevices)) =
    ([EvNewClient
        {| client_id := Some "home-id";
           client_secret := Some "home-secret";
           redirect_uri := "http://localhost:8888/callback";
           scope := cli_scope;
           cache_path := "/home/u/.spotify-cli-cache" |};
      EvApi ApiDevices;
      EvPrint "❌ No devices found"],
     Return tt).
Proof. reflexivity. Qed.

Example script_without_credentials_exits_1 :
  exit_code (script bare_process (client_with []) "" (Parsed (Some CmdNow))) = 1.
Proof. reflexivity. Qed.

(** ** Sequencing, in terms of traces and outcomes *)

Lemma bind_trace {A B} (m : Run A) (k : A -> Run B) :
  (m ≫= k).1 =
    m.1 ++ match m.2 with Return a => (k a).1 | _ => [] end.
Proof.
  destruct m as [tr [a|e|st]]; cbn; [|by rewrite app_nil_r..].
  by destruct (k a).
Qed.

Lemma bind_outcome {A B} (m : Run A) (k : A -> Run B) :
  (m ≫= k).2 =
    match m.2 with
    | Return a => (k a).2
    | Raise e => Raise e
    | SysExit st => SysExit st
    end.
Proof. destruct m as [tr [a|e|st]]; cbn; [|done..]. by destruct (k a). Qed.

Lemma try_except_trace {A} (body : Run A) (handler : Exn -> Run A) :
  (try_except body handler).1 =
    body.1 ++ match body.2 with Raise e => (handler e).1 | _ => [] end.
Proof.
  destruct body as [tr [a|e|st]]; cbn; [by rewrite app_nil_r| |by rewrite app_nil_r].
  by destruct (handler e).
Qed.

Lemma try_except_outcome {A} (body : Run A) (handler : Exn -> Run A) :
  (try_except body handler).2 =
    match body.2 with Raise e => (handler e).2 | o => o end.
Proof. destruct body as [tr [a|e|st]]; cbn; [done| |done]. by destruct (handler e). Qed.

Lemma Forall_bind {A B} (P : Event -> Prop) (m : Run A) (k : A -> Run B) :
  Forall P m.1 ->
  (∀ a, m.2 = Return a -> Forall P (k a).1) ->
  Forall P (m ≫= k).1.
Proof.
  intros Hm Hk. rewrite bind_trace. apply Forall_app. split; [exact Hm|].
  destruct (m.2) as [a|e|st]; [by apply Hk | constructor..].
Qed.

Lemma Forall_try_except {A} (P : Event -> Prop) (body : Run A)
    (handler : Exn -> Run A) :
  Forall P body.1 ->
  (∀ e, Forall P (handler e).1) ->
  Forall P (try_except body handler).1.
Proof.
  intros Hb Hh. rewrite try_except_trace. apply Forall_app. split; [exact Hb|].
  destruct (body.2) as [a|e|st]; [constructor | apply Hh | constructor].
Qed.

Lemma Forall_for_each {A} (P : Event -> Prop) (body : A -> Run unit)
    (xs : list A) :
  (∀ x, Forall P (body x).1) -> Forall P (for_each body xs).1.
Proof.
  intros Hbody. induction xs as [|x xs IH]; [constructor|].
  cbn [for_each]. apply Forall_bind; [apply Hbody | intros _ _; exact IH].
Qed.

Lemma Forall_for_enumerate {A} (P : Event -> Prop) (body : Z -> A -> Run unit)
    (start : Z) (xs : list A) :
  (∀ i x, Forall P (body i x).1) -> Forall P (for_enumerate body start xs).1.
Proof.
  intros Hbody. revert start. induction xs as [|x xs IH]; intros start;
    [constructor|].
  cbn [for_enumerate]. apply Forall_bind; [apply Hbody | intros _ _; apply IH].
Qed.

Lemma Forall_print (P : Event -> Prop) (line : string) :
  P (EvPrint line) -> Forall P (print line).1.
Proof. intros H. by repeat constructor. Qed.

Lemma Forall_api {A} (P : Event -> Prop) (c : ApiCall) (r : Response A) :
  P (EvApi c) -> Forall P (api c r).1.
Proof. intros H. by repeat constructor. Qed.

Lemma api_calls_printed (tr : list Event) :
  Forall printed tr -> api_calls tr = [].
Proof.
  induction 1 as [|ev tr Hev _ IH]; [reflexivity|].
  destruct ev; try contradiction. exact IH.
Qed.

(** ** The device guard, in every case *)

Lemma existsb_filter_active (ds : list Device) :
  filter (λ d, dev_is_active d = true) ds = [] ↔ existsb dev_is_active ds = false.
Proof.
  induction ds as [|d ds IH]; [done|]. cbn [existsb].
  destruct (dev_is_active d) eqn:Hd.
  - rewrite filter_cons_True by done. done.
  - rewrite filter_cons_False by congruence. exact IH.
Qed.

Lemma check_active_device_active sp answer auto_open (ds : list Device) :
  sp_devices sp = Ok ds ->
  existsb dev_is_active ds = true ->
  check_active_device sp answer auto_open = ([EvApi ApiDevices], Return true).
Proof.
  intros Hds Hact. unfold check_active_device. rewrite Hds.
  destruct ds as [|d ds']; [discriminate|].
  unfold api. cbn [mbind Run_bind run_bind].
  destruct (filter (λ d0, dev_is_active d0 = true) (d :: ds')) eqn:Hf;
    [|reflexivity].
  apply existsb_filter_active in Hf. congruence.
Qed.

Lemma check_active_device_error sp answer auto_open (e : Exn) :
  sp_devices sp = Err e ->
  check_active_device sp answer auto_open = ([EvApi ApiDevices], Raise e).
Proof. intros Hds. unfold check_active_device. by rewrite Hds. Qed.

Lemma check_active_device_no_open sp answer :
  sp_devices sp = Ok [] ->
  check_active_device sp answer false =
    ([EvApi ApiDevices] ++ (EvPrint <$> no_devices_help) ++ [EvPrint open_tip],
     Return false).
Proof. intros Hds. unfold check_active_device. by rewrite Hds. Qed.

Lemma check_active_device_cases sp answer auto_open (ds : list Device) :
  sp_devices sp = Ok ds ->
  (check_active_device sp answer auto_open).2 =
    Return (existsb dev_is_active ds)
  ∧ api_calls (check_active_device sp answer auto_open).1 = [ApiDevices].
Proof.
  intros Hds. destruct (existsb dev_is_active ds) eqn:Hact.
  - by rewrite (check_active_device_active sp answer auto_open ds Hds Hact).
  - destruct ds as [|d ds'].
    + destruct auto_open.
      * rewrite (check_active_device_none_registered sp answer Hds).
        split; [done|].
        by destruct (str_in (lower answer) ["y"; "yes"]).
      * by rewrite (check_active_device_no_open sp answer Hds).
    + assert (Hoff : Forall (λ d0, dev_is_active d0 = false) (d :: ds')).
      { apply Forall_forall. intros x Hx.
        destruct (dev_is_active x) eqn:Hxa; [|done].
        assert (existsb dev_is_active (d :: ds') = true); [|congruence].
        apply existsb_exists. exists x. split; [by apply list_elem_of_In|done]. }
      rewrite (check_active_device_none_active sp answer auto_open (d :: ds')
                 Hds ltac:(done) Hoff).
      split; [done|].
      cbn [fst]. cbn. by rewrite api_calls_app, api_calls_prints.
Qed.

(** X1. When [devices] answers, the guard returns [True] exactly when
    some listed device is active, whatever [auto_open] and the answer at
    the prompt; it calls [devices] once and no other method; and when it
    returns [True] it prints nothing. *)
Theorem guard_true_iff_some_active sp answer auto_open (ds : list Device) :
  sp_devices sp = Ok ds ->
  (check_active_device sp answer auto_open).2 =
    Return (existsb dev_is_active ds)
  ∧ api_calls (check_active_device sp answer auto_open).1 = [ApiDevices]
  ∧ (existsb dev_is_active ds = true ->
     (check_active_device sp answer auto_open).1 = [EvApi ApiDevices]).
Proof.
  intros Hds.
  destruct (check_active_device_cases sp answer auto_open ds Hds)
    as [Hout Hcalls].
  split; [exact Hout|]. split; [exact Hcalls|].
  intros Hact.
  by rewrite (check_active_device_active sp answer auto_open ds Hds Hact).
Qed.

Lemma guard_true_iff_some_active_witness :
  (check_active_device (client_with [phone; speaker]) "" false).2 = Return true
  ∧ (check_active_device (client_with [phone; laptop]) "" false).2 = Return false.
Proof.
  split.
  - exact (proj1 (guard_true_iff_some_active (client_with [phone; speaker]) ""
                    false [phone; speaker] eq_refl)).
  - exact (proj1 (guard_true_iff_some_active (client_with [phone; laptop]) ""
                    false [phone; laptop] eq_refl)).
Defined.

(** ** [play], in every case *)

Lemma play_ready sp answer uri auto_open (ds : list Device) :
  sp_devices sp = Ok ds ->
  existsb dev_is_active ds = true ->
  play sp answer uri auto_open =
    ([EvApi ApiDevices; EvApi (ApiStartPlayback (play_uris uri));
      EvPrint (match sp_start_playback sp (play_uris uri) with
               | Ok _ => if truthy uri then "▶️  Playing track"
                         else "▶️  Playback resumed"
               | Err e => error_line e
               end)],
     Return tt).
Proof.
  intros Hds Hact. unfold play.
  rewrite (check_active_device_active sp answer auto_open ds Hds Hact).
  cbn [mbind Run_bind run_bind negb]. unfold play_uris.
  destruct (truthy uri); cbv zeta; run_unfold.
  - by destruct (sp_start_playback sp (Some [default "" uri])) as [[]|e].
  - by destruct (sp_start_playback sp None) as [[]|e].
Qed.

Lemma play_guard_error sp answer uri auto_open (e : Exn) :
  sp_devices sp = Err e ->
  play sp answer uri auto_open = ([EvApi ApiDevices], Raise e).
Proof.
  intros Hds. unfold play.
  by rewrite (check_active_device_error sp answer auto_open e Hds).
Qed.

Lemma play_not_ready sp answer uri auto_open (ds : list Device) :
  sp_devices sp = Ok ds ->
  existsb dev_is_active ds = false ->
  play sp answer uri auto_open =
    ((check_active_device sp answer auto_open).1, Return tt).
Proof.
  intros Hds Hact. unfold play.
  destruct (check_active_device_cases sp answer auto_open ds Hds) as (Ho & _).
  rewrite Hact in Ho.
  destruct (check_active_device sp answer auto_open) as [tr o].
  cbn in Ho. subst o. cbn. by rewrite app_nil_r.
Qed.

(** X2. With an active device, [play] calls [devices] and then
    [start_playback] once: with [uris=[uri]] when a non-empty URI was
    given, without arguments otherwise (an empty URI resumes).  It prints
    one line, the confirmation or, when [start_playback] raises, the
    error, and returns normally in both cases. *)
Theorem play_with_active_device sp answer uri auto_open (ds : list Device) :
  sp_devices sp = Ok ds ->
  existsb dev_is_active ds = true ->
  play sp answer uri auto_open =
    ([EvApi ApiDevices; EvApi (ApiStartPlayback (play_uris uri));
      EvPrint (match sp_start_playback sp (play_uris uri) with
               | Ok _ => if truthy uri then "▶️  Playing track"
                         else "▶️  Playback resumed"
               | Err e => error_line e
               end)],
     Return tt)
  ∧ play_uris (Some "") = None
  ∧ play_uris None = None
  ∧ (∀ u, u ≠ "" -> play_uris (Some u) = Some [u]).
Proof.
  intros Hds Hact. split; [by apply (play_ready sp answer uri auto_open ds)|].
  split; [done|]. split; [done|].
  intros u Hu. unfold play_uris. cbn.
  by destruct (String.eqb_spec u "").
Qed.

Lemma play_with_active_device_witness :
  play (client_with [phone; speaker]) "" (Some "spotify:track:1") false =
    ([EvApi ApiDevices;
      EvApi (ApiStartPlayback (Some ["spotify:track:1"]));
      EvPrint "▶️  Playing track"],
     Return tt).
Proof.
  exact (proj1 (play_with_active_device (client_with [phone; speaker]) ""
                  (Some "spotify:track:1") false [phone; speaker]
                  eq_refl eq_refl)).
Defined.

(** X3. The guard of [play] runs outside its [try] block: when
    [devices] raises, [play] lets the exception through, so with
    credentials configured [main] prints it as the error line and the
    process ends with status 1; [start_playback] is not called. *)
Theorem play_devices_error_exits_1 p sp answer uri auto_open (e : Exn) :
  credentials_missing p = false ->
  sp_devices sp = Err e ->
  play sp answer uri auto_open = ([EvApi ApiDevices], Raise e)
  ∧ main p sp answer (Parsed (Some (CmdPlay uri auto_open))) =
      ([EvNewClient (cli_config p); EvApi ApiDevices; EvPrint (error_line e)],
       SysExit 1)
  ∧ exit_code (main p sp answer (Parsed (Some (CmdPlay uri auto_open)))) = 1.
Proof.
  intros Hcred Hds.
  pose proof (play_guard_error sp answer uri auto_open e Hds) as Hplay.
  split; [exact Hplay|].
  rewrite (main_with_credentials p sp answer _ Hcred). cbn [dispatch].
  rewrite Hplay. by split.
Qed.

Lemma play_devices_error_witness :
  exit_code (main configured_process failing_client ""
               (Parsed (Some (CmdPlay None false)))) = 1.
Proof.
  exact (proj2 (proj2 (play_devices_error_exits_1 configured_process
                         failing_client "" None false unauthorized
                         eq_refl eq_refl))).
Defined.



(** ** Computations that only print *)

Lemma prints_print (line : string) :
  Forall printed (print line).1 ∧ (print line).2 = Return tt.
Proof. split; [by repeat constructor | done]. Qed.

Lemma prints_ret : Forall printed (mret tt : Run unit).1 ∧ (mret tt : Run unit).2 = Return tt.
Proof. split; [constructor | done]. Qed.

Lemma prints_bind (m : Run unit) (k : unit -> Run unit) :
  Forall printed m.1 ∧ m.2 = Return tt ->
  Forall printed (k tt).1 ∧ (k tt).2 = Return tt ->
  Forall printed (m ≫= k).1 ∧ (m ≫= k).2 = Return tt.
Proof.
  intros [Hm Hmo] [Hk Hko]. split.
  - apply Forall_bind; [exact Hm | by intros []].
  - by rewrite bind_outcome, Hmo.
Qed.

Lemma prints_for_each {A} (body : A -> Run unit) (xs : list A) :
  (∀ x, Forall printed (body x).1 ∧ (body x).2 = Return tt) ->
  Forall printed (for_each body xs).1 ∧ (for_each body xs).2 = Return tt.
Proof.
  intros Hbody. induction xs as [|x xs IH]; [apply prints_ret|].
  cbn [for_each]. apply prints_bind; [apply Hbody | exact IH].
Qed.

Lemma prints_for_enumerate {A} (body : Z -> A -> Run unit) (start : Z)
    (xs : list A) :
  (∀ i x, Forall printed (body i x).1 ∧ (body i x).2 = Return tt) ->
  Forall printed (for_enumerate body start xs).1
  ∧ (for_enumerate body start xs).2 = Return tt.
Proof.
  intros Hbody. revert start. induction xs as [|x xs IH]; intros start;
    [apply prints_ret|].
  cbn [for_enumerate]. apply prints_bind; [apply Hbody | apply IH].
Qed.

Ltac prints_only :=
  repeat first
    [ apply prints_print
    | apply prints_ret
    | apply prints_bind
    | apply prints_for_each; intros
    | apply prints_for_enumerate; intros
    | match goal with
      | |- context [match ?x with _ => _ end] => destruct x
      end ].

(** A call followed by printing: the shape of the commands that read. *)
Lemma api_then_prints {A} (c : ApiCall) (r : Response A) (k : A -> Run unit) :
  (∀ a, Forall printed (k a).1 ∧ (k a).2 = Return tt) ->
  ∃ rest,
    (api c r ≫= k).1 = EvApi c :: rest
    ∧ Forall printed rest
    ∧ (api c r ≫= k).2 =
        match response_error r with Some e => Raise e | None => Return tt end.
Proof.
  intros Hk. rewrite bind_trace, bind_outcome. destruct r as [a|e]; cbn.
  - destruct (Hk a) as [Htr Ho]. exists (k a).1. by repeat split.
  - exists []. by repeat split.
Qed.

(** A call in a [try] block whose handler prints: the shape of the
    commands that change playback. *)
Lemma try_api_then_prints (c : ApiCall) (r : Response unit) (done_line : string) :
  ∃ rest,
    (try_except (api c r;; print done_line) (λ e, print (error_line e))).1 =
      EvApi c :: rest
    ∧ Forall printed rest
    ∧ (try_except (api c r;; print done_line) (λ e, print (error_line e))).2 =
        Return tt.
Proof.
  destruct r as [[]|e]; (eexists; split; [reflexivity|]);
    (split; [by repeat constructor | reflexivity]).
Qed.

Lemma dispatch_anatomy sp answer (c : Command) :
  is_play c = false ->
  ∃ rest,
    (dispatch sp answer c).1 = EvApi (first_call c) :: rest
    ∧ Forall printed rest
    ∧ (dispatch sp answer c).2 =
        match unhandled_error sp c with
        | Some e => Raise e
        | None => Return tt
        end.
Proof.
  intros Hplay. destruct c; try discriminate; cbn [dispatch first_call unhandled_error].
  - unfold current_playback, now_error.
    destruct (sp_current_playback sp) as [[current|]|e];
      [| eexists; split; [reflexivity|];
         (split; [by repeat constructor | reflexivity]) ..].
    unfold api. cbn [mbind Run_bind run_bind option_bind].
    destruct (pb_item current) as [track|];
      [| eexists; split; [reflexivity|];
         (split; [by repeat constructor | reflexivity])].
    cbn [fmap option_fmap option_map]. unfold floordiv.
    destruct (pb_progress_ms current) as [ms|];
      [| eexists; split; [reflexivity|];
         (split; [by repeat constructor | reflexivity])].
    destruct (pb_device current); (eexists; split; [reflexivity|]);
      (split; [by repeat constructor | reflexivity]).
  - apply try_api_then_prints.
  - apply try_api_then_prints.
  - apply try_api_then_prints.
  - rewrite volume_trace. cbv zeta. rewrite py_max_spec, py_min_spec.
    destruct (sp_volume sp _); (eexists; split; [reflexivity|]);
      (split; [by repeat constructor | reflexivity]).
  - apply api_then_prints. intros results. prints_only.
  - apply api_then_prints. intros playlists. prints_only.
  - apply api_then_prints. intros playlist. prints_only.
    unfold playlist_item. cbv zeta. prints_only.
  - apply api_then_prints. intros ds. prints_only.
  - apply api_then_prints. intros results. prints_only.
Qed.

(** ** How [main] ends *)

Lemma play_outcome sp answer uri auto_open :
  (play sp answer uri auto_open).2 =
    match response_error (sp_devices sp) with
    | Some e => Raise e
    | None => Return tt
    end.
Proof.
  destruct (sp_devices sp) as [ds|e] eqn:Hds; cbn [response_error].
  - destruct (existsb dev_is_active ds) eqn:Hact.
    + by rewrite (play_ready sp answer uri auto_open ds Hds Hact).
    + by rewrite (play_not_ready sp answer uri auto_open ds Hds Hact).
  - by rewrite (play_guard_error sp answer uri auto_open e Hds).
Qed.

Lemma dispatch_outcome sp answer (c : Command) :
  (dispatch sp answer c).2 =
    match unhandled_error sp c with
    | Some e => Raise e
    | None => Return tt
    end.
Proof.
  destruct (is_play c) eqn:Hplay.
  - destruct c; try discriminate. apply play_outcome.
  - destruct (dispatch_anatomy sp answer c Hplay) as (rest & _ & _ & Ho).
    exact Ho.
Qed.

Lemma main_shape p sp answer (c : Command) :
  credentials_missing p = false ->
  (main p sp answer (Parsed (Some c))).1 =
    EvNewClient (cli_config p) :: (dispatch sp answer c).1
      ++ match unhandled_error sp c with
         | Some e => [EvPrint (error_line e)]
         | None => []
         end
  ∧ (main p sp answer (Parsed (Some c))).2 =
      match unhandled_error sp c with
      | Some e => SysExit 1
      | None => Return tt
      end.
Proof.
  intros Hcred. rewrite (main_with_credentials p sp answer c Hcred).
  rewrite try_except_trace, try_except_outcome, bind_trace, bind_outcome.
  cbn [SpotifyCLI_init emit fst snd]. rewrite dispatch_outcome.
  destruct (unhandled_error sp c); by split.
Qed.

Lemma dispatch_unhandled_trace sp answer (c : Command) (e : Exn) :
  unhandled_error sp c = Some e ->
  dispatch sp answer c = ([EvApi (first_call c)], Raise e).
Proof.
  intros Herr. destruct c; cbn [unhandled_error] in Herr; try discriminate;
    cbn [dispatch first_call].
  - unfold now_error in Herr. unfold current_playback.
    destruct (sp_current_playback sp) as [[current|]|e'];
      [| discriminate | by simplify_eq].
    unfold api. cbn [mbind Run_bind run_bind option_bind] in *.
    destruct (pb_item current) as [track|]; [|discriminate].
    cbn [fmap option_fmap option_map] in *. unfold floordiv.
    destruct (pb_progress_ms current) as [ms|]; [discriminate|].
    by simplify_eq.
  - destruct (sp_devices sp) as [ds|e'] eqn:Hds; [discriminate|].
    cbn in Herr. simplify_eq.
    by apply play_guard_error.
  - unfold search.
    destruct (sp_search sp query type limit) as [r|e']; [discriminate|].
    cbn in Herr. by simplify_eq.
  - unfold my_playlists.
    destruct (sp_current_user_playlists sp limit) as [r|e']; [discriminate|].
    cbn in Herr. by simplify_eq.
  - unfold playlist_tracks.
    destruct (sp_playlist sp uri) as [r|e']; [discriminate|].
    cbn in Herr. by simplify_eq.
  - unfold devices.
    destruct (sp_devices sp) as [r|e']; [discriminate|].
    cbn in Herr. by simplify_eq.
  - unfold top_tracks.
    destruct (sp_current_user_top_tracks sp limit _) as [r|e'];
      [discriminate|].
    cbn in Herr. by simplify_eq.
Qed.

(** X5. With credentials configured, when the call that a command
    makes outside every [try] block raises (the first call of [now],
    [search], [playlists], [playlist], [devices] and [top], and the
    [devices] call of [play]), or when [now] divides a null
    [progress_ms], the method does nothing more: [main] prints that
    exception as the error line and the process ends with status 1.  The
    calls of [pause], [next], [prev] and [volume] are inside a [try]
    block: whatever the client answers, these methods return normally. *)
Theorem unhandled_error_exits_1 p sp answer (c : Command) (e : Exn) :
  credentials_missing p = false ->
  unhandled_error sp c = Some e ->
  main p sp answer (Parsed (Some c)) =
    ([EvNewClient (cli_config p); EvApi (first_call c); EvPrint (error_line e)],
     SysExit 1)
  ∧ exit_code (main p sp answer (Parsed (Some c))) = 1
  ∧ (∀ sp' level,
       (pause sp').2 = Return tt
       ∧ (next_track sp').2 = Return tt
       ∧ (previous_track sp').2 = Return tt
       ∧ (volume sp' level).2 = Return tt).
Proof.
  intros Hcred Herr.
  assert (Hmain : main p sp answer (Parsed (Some c)) =
    ([EvNewClient (cli_config p); EvApi (first_call c); EvPrint (error_line e)],
     SysExit 1)).
  { rewrite (main_with_credentials p sp answer c Hcred).
    by rewrite (dispatch_unhandled_trace sp answer c e Herr). }
  rewrite Hmain. split; [done|]. split; [done|].
  intros sp' level. repeat split.
  - unfold pause. by destruct (sp_pause_playback sp') as [[]|e'].
  - unfold next_track. by destruct (sp_next_track sp') as [[]|e'].
  - unfold previous_track. by destruct (sp_previous_track sp') as [[]|e'].
  - rewrite volume_trace. cbv zeta. by destruct (sp_volume sp' _).
Qed.

Lemma unhandled_error_witness :
  main configured_process failing_client ""
    (Parsed (Some (CmdSearch "abba" TypeTrack 10))) =
    ([EvNewClient (cli_config configured_process);
      EvApi (ApiSearch "abba" TypeTrack 10);
      EvPrint (error_line unauthorized)],
     SysExit 1)
  ∧ main configured_process paused_without_progress "" (Parsed (Some CmdNow)) =
      ([EvNewClient (cli_config configured_process);
        EvApi ApiCurrentPlayback;
        EvPrint "❌ Error: unsupported operand type(s) for //: 'NoneType' and 'int'"],
       SysExit 1).
Proof.
  split.
  - exact (proj1 (unhandled_error_exits_1 configured_process failing_client ""
                    (CmdSearch "abba" TypeTrack 10) unauthorized
                    eq_refl eq_refl)).
  - exact (proj1 (unhandled_error_exits_1 configured_process
                    paused_without_progress "" CmdNow type_error_floordiv
                    eq_refl eq_refl)).
Defined.

(** ** The calls of each command *)

Lemma play_api_calls sp answer uri auto_open :
  api_calls (play sp answer uri auto_open).1 =
    ApiDevices ::
      (if some_device_active sp then [ApiStartPlayback (play_uris uri)] else []).
Proof.
  unfold some_device_active.
  destruct (sp_devices sp) as [ds|e] eqn:Hds.
  - destruct (existsb dev_is_active ds) eqn:Hact.
    + by rewrite (play_ready sp answer uri auto_open ds Hds Hact).
    + rewrite (play_not_ready sp answer uri auto_open ds Hds Hact). cbn [fst].
      by destruct (check_active_device_cases sp answer auto_open ds Hds)
        as (_ & ->).
  - by rewrite (play_guard_error sp answer uri auto_open e Hds).
Qed.

(** X7. Every command other than [play] calls exactly one method of
    the client, once, with the arguments of the command passed through
    ([volume] after clamping, [top] with [_term] appended to the range);
    [play] calls [devices] and, only when some device is active,
    [start_playback] after it.  No command calls more than two methods. *)
Theorem calls_of_each_command sp answer (c : Command) :
  api_calls (dispatch sp answer c).1 =
    match c with
    | CmdPlay uri _ =>
        ApiDevices ::
          (if some_device_active sp then [ApiStartPlayback (play_uris uri)]
           else [])
    | _ => [first_call c]
    end
  ∧ (length (api_calls (dispatch sp answer c).1) <= 2)%nat.
Proof.
  assert (Hcalls : api_calls (dispatch sp answer c).1 =
    match c with
    | CmdPlay uri _ =>
        ApiDevices ::
          (if some_device_active sp then [ApiStartPlayback (play_uris uri)]
           else [])
    | _ => [first_call c]
    end).
  { destruct (is_play c) eqn:Hplay.
    - destruct c; try discriminate. apply play_api_calls.
    - destruct (dispatch_anatomy sp answer c Hplay) as (rest & Htr & Hrest & _).
      rewrite Htr.
      change (api_calls (EvApi (first_call c) :: rest))
        with (first_call c :: api_calls rest).
      rewrite (api_calls_printed rest Hrest).
      by destruct c. }
  split; [exact Hcalls|]. rewrite Hcalls.
  destruct c; cbn; try lia. destruct (some_device_active sp); cbn; lia.
Qed.

(** ** What a command may do besides printing and calling *)

Lemma printed_command_event sp answer auto_open (tr : list Event) :
  Forall printed tr -> Forall (command_event sp answer auto_open) tr.
Proof.
  intros Htr. eapply Forall_impl; [exact Htr|]. intros ev Hev. by destruct ev.
Qed.

Lemma prints_command_event {A} sp answer auto_open (f : A -> string)
    (xs : list A) :
  Forall (command_event sp answer auto_open) (EvPrint ∘ f <$> xs).
Proof. apply Forall_fmap, Forall_true. done. Qed.

Lemma check_active_device_events sp answer auto_open :
  Forall (command_event sp answer auto_open)
    (check_active_device sp answer auto_open).1.
Proof.
  destruct (sp_devices sp) as [ds|e] eqn:Hds.
  - destruct (existsb dev_is_active ds) eqn:Hact.
    + rewrite (check_active_device_active sp answer auto_open ds Hds Hact).
      by repeat constructor.
    + destruct ds as [|d ds'].
      * destruct auto_open.
        -- rewrite (check_active_device_none_registered sp answer Hds).
           cbn [fst]. unfold no_devices_help.
           destruct (str_in (lower answer) ["y"; "yes"]) eqn:Hyes;
             cbn; repeat constructor; done.
        -- rewrite (check_active_device_no_open sp answer Hds).
           cbn. by repeat constructor.
      * assert (Hoff : Forall (λ d0, dev_is_active d0 = false) (d :: ds')).
        { apply Forall_forall. intros x Hx.
          destruct (dev_is_active x) eqn:Hxa; [|done].
          assert (existsb dev_is_active (d :: ds') = true); [|congruence].
          apply existsb_exists. exists x.
          split; [by apply list_elem_of_In|done]. }
        rewrite (check_active_device_none_active sp answer auto_open (d :: ds')
                   Hds ltac:(done) Hoff).
        cbn [fst]. repeat (apply Forall_cons; split; [done|]).
        apply Forall_app. split; [apply prints_command_event|].
        by repeat constructor.
  - rewrite (check_active_device_error sp answer auto_open e Hds).
    by repeat constructor.
Qed.

Lemma play_events sp answer uri auto_open :
  Forall (command_event sp answer auto_open) (play sp answer uri auto_open).1.
Proof.
  destruct (sp_devices sp) as [ds|e] eqn:Hds.
  - destruct (existsb dev_is_active ds) eqn:Hact.
    + rewrite (play_ready sp answer uri auto_open ds Hds Hact).
      by repeat constructor.
    + rewrite (play_not_ready sp answer uri auto_open ds Hds Hact).
      apply check_active_device_events.
  - rewrite (play_guard_error sp answer uri auto_open e Hds).
    by repeat constructor.
Qed.

Lemma dispatch_events sp answer (c : Command) :
  Forall (command_event sp answer (open_flag c)) (dispatch sp answer c).1.
Proof.
  destruct (is_play c) eqn:Hplay.
  - destruct c; try discriminate. apply play_events.
  - destruct (dispatch_anatomy sp answer c Hplay) as (rest & Htr & Hrest & _).
    rewrite Htr. apply Forall_cons. split; [done|].
    by apply printed_command_event.
Qed.

(** Every event of [main] after the construction of the client. *)
Lemma main_events p sp answer (c : Command) :
  credentials_missing p = false ->
  ∃ rest,
    (main p sp answer (Parsed (Some c))).1 = EvNewClient (cli_config p) :: rest
    ∧ Forall (command_event sp answer (open_flag c)) rest.
Proof.
  intros Hcred. destruct (main_shape p sp answer c Hcred) as [Htr _].
  eexists. split; [exact Htr|].
  apply Forall_app. split; [apply dispatch_events|].
  destruct (unhandled_error sp c); by repeat constructor.
Qed.

(** X8. The client is constructed only for a parsed sub-command, and
    only in an environment where both [SPOTIFY_CLIENT_ID] and
    [SPOTIFY_CLIENT_SECRET] are set and not empty: never when argparse
    ended the process, when no sub-command was given, or when a credential
    is missing.  It is constructed at most once, before anything else
    happens, and is given these two values and the cache path in the home
    directory. *)
Theorem client_built_only_with_credentials
    p sp answer (parsed : ParseResult) (cfg : OAuthConfig) :
  EvNewClient cfg ∈ (main p sp answer parsed).1 ->
  (∃ c, parsed = Parsed (Some c))
  ∧ credentials_missing p = false
  ∧ cfg = cli_config p
  ∧ (∃ id, client_id cfg = Some id ∧ id ≠ ""
           ∧ getenv p "SPOTIFY_CLIENT_ID" = Some id)
  ∧ (∃ secret, client_secret cfg = Some secret ∧ secret ≠ ""
               ∧ getenv p "SPOTIFY_CLIENT_SECRET" = Some secret)
  ∧ cache_path cfg = path_join (home p) ".spotify-cli-cache"
  ∧ ∃ rest, (main p sp answer parsed).1 = EvNewClient cfg :: rest
            ∧ ∀ cfg', EvNewClient cfg' ∉ rest.
Proof.
  intros Hin.
  destruct parsed as [status|[c|]];
    [by apply elem_of_nil in Hin | |].
  2:{ apply list_elem_of_singleton in Hin. discriminate. }
  destruct (credentials_missing p) eqn:Hcred.
  - rewrite (main_missing_credentials p sp answer c Hcred) in Hin.
    apply list_elem_of_fmap in Hin as (line & Heq & _). discriminate.
  - destruct (main_events p sp answer c Hcred) as (rest & Htr & Hrest).
    assert (Hnone : ∀ cfg', EvNewClient cfg' ∉ rest).
    { intros cfg' Hin'. rewrite Forall_forall in Hrest.
      exact (Hrest _ Hin'). }
    rewrite Htr in Hin. apply elem_of_cons in Hin as [Heq|Hin];
      [|by apply Hnone in Hin].
    injection Heq as ->.
    unfold credentials_missing in Hcred.
    apply orb_false_iff in Hcred as [Hid Hsecret].
    apply negb_false_iff in Hid. apply negb_false_iff in Hsecret.
    split; [by exists c|]. split; [done|]. split; [done|].
    split; [|split; [|split; [done | by exists rest]]].
    + cbn [cli_config client_id].
      destruct (getenv p "SPOTIFY_CLIENT_ID") as [id|]; [|discriminate].
      exists id. repeat split; try done.
      cbn in Hid. apply negb_true_iff in Hid. by apply String.eqb_neq in Hid.
    + cbn [cli_config client_secret].
      destruct (getenv p "SPOTIFY_CLIENT_SECRET") as [secret|]; [|discriminate].
      exists secret. repeat split; try done.
      cbn in Hsecret. apply negb_true_iff in Hsecret.
      by apply String.eqb_neq in Hsecret.
Qed.

Lemma client_built_witness :
  (∃ c, Parsed (Some CmdDevices) = Parsed (Some c))
  ∧ client_id (cli_config configured_process) = Some "home-id"
  ∧ cache_path (cli_config configured_process) = "/home/u/.spotify-cli-cache".
Proof.
  destruct (client_built_only_with_credentials configured_process
              (client_with []) "" (Parsed (Some CmdDevices))
              (cli_config configured_process))
    as (Hcmd & _ & _ & _ & _ & Hcache & _).
  - left.
  - split; [exact Hcmd|]. split; [reflexivity | exact Hcache].
Defined.





(** ** The answer at the prompt *)

Lemma lower_ascii_idemp (c : ascii) : lower_ascii (lower_ascii c) = lower_ascii c.
Proof. by destruct c as [[] [] [] [] [] [] [] []]. Qed.

Lemma lower_idemp (s : string) : lower (lower s) = lower s.
Proof.
  induction s as [|c s IH]; [done|]. cbn [lower].
  by rewrite lower_ascii_idemp, IH.
Qed.

Lemma check_active_device_answer sp (a1 a2 : string) auto_open :
  lower a1 = lower a2 ->
  check_active_device sp a1 auto_open = check_active_device sp a2 auto_open.
Proof.
  intros Heq. unfold check_active_device.
  destruct (sp_devices sp) as [[|d ds]|e]; [|done..].
  destruct auto_open; [|done].
  unfold api, input. cbn [mbind Run_bind run_bind]. by rewrite Heq.
Qed.

Lemma dispatch_answer sp (a1 a2 : string) (c : Command) :
  lower a1 = lower a2 -> dispatch sp a1 c = dispatch sp a2 c.
Proof.
  intros Heq. destruct c; try done. cbn [dispatch]. unfold play.
  by rewrite (check_active_device_answer sp a1 a2 _ Heq).
Qed.

(** X11. The answer at the prompt is read without regard to letter
    case: two answers that agree once lower-cased lead to the same run of
    the whole program, and an answer leads to the same run as its
    lower-case form. *)
Theorem answer_is_case_insensitive p sp (a1 a2 : string) (parsed : ParseResult) :
  lower a1 = lower a2 ->
  main p sp a1 parsed = main p sp a2 parsed
  ∧ main p sp a1 parsed = main p sp (lower a1) parsed.
Proof.
  assert (Hmain : ∀ b1 b2, lower b1 = lower b2 ->
            main p sp b1 parsed = main p sp b2 parsed).
  { intros b1 b2 Hb. destruct parsed as [status|[c|]]; try done.
    unfold main. by rewrite (dispatch_answer sp b1 b2 c Hb). }
  intros Heq. split; [by apply Hmain|].
  apply Hmain. by rewrite lower_idemp.
Qed.

Lemma answer_case_witness :
  main configured_process (client_with []) "Yes"
    (Parsed (Some (CmdPlay None true))) =
  main configured_process (client_with []) "yES"
    (Parsed (Some (CmdPlay None true))).
Proof.
  exact (proj1 (answer_is_case_insensitive configured_process (client_with [])
                  "Yes" "yES" (Parsed (Some (CmdPlay None true))) eq_refl)).
Defined.

(** ** Clock fields *)



(** ** [now] *)

(** X13. When [current_playback] answers [None], or a playback state
    without an item, [now] prints the nothing-playing line and returns; it
    reads no other field of the answer. *)
Theorem now_nothing_playing sp (current : option Playback) :
  sp_current_playback sp = Ok current ->
  current ≫= pb_item = None ->
  current_playback sp =
    ([EvApi ApiCurrentPlayback; EvPrint "❌ Nothing is currently playing"],
     Return tt).
Proof.
  intros Hresp Hitem. unfold current_playback. rewrite Hresp.
  unfold api. cbn [mbind Run_bind run_bind].
  destruct current as [pb|]; [|done].
  cbn in Hitem. cbn [mbind option_bind]. by rewrite Hitem.
Qed.

Lemma now_nothing_playing_witness :
  current_playback (client_with []) =
    ([EvApi ApiCurrentPlayback; EvPrint "❌ Nothing is currently playing"],
     Return tt).
Proof.
  exact (now_nothing_playing (client_with []) None eq_refl eq_refl).
Defined.

(** ** Listings *)

Lemma for_each_returns {A} (body : A -> Run unit) (xs : list A) :
  (∀ x, (body x).2 = Return tt) ->
  for_each body xs = (xs ≫= (λ x, (body x).1), Return tt).
Proof.
  intros Hbody. induction xs as [|x xs IH]; [done|].
  cbn [for_each]. unfold mbind at 1, Run_bind.
  specialize (Hbody x). destruct (body x) as [tr o] eqn:Hb.
  cbn in Hbody. subst o. cbn [run_bind]. rewrite IH.
  cbn [mbind list_bind]. by rewrite Hb.
Qed.

Lemma mjoin_imap_singleton {A B} (f : nat -> A -> B) (xs : list A) :
  mjoin (imap (λ k x, [f k x]) xs) = imap f xs.
Proof.
  revert f. induction xs as [|x xs IH]; intros f; [done|].
  rewrite !imap_cons. cbn [mjoin list_join]. cbn. f_equal. apply (IH (f ∘ S)).
Qed.

(** X14. When the list the search was asked for comes back empty,
    [search] prints the one line that says so for that type and returns,
    without a header; the lists of the other types are not looked at. *)
Theorem search_without_results sp (query : string) (type : SearchType)
    (limit : Z) (results : SearchResults) :
  sp_search sp query type limit = Ok results ->
  match type with
  | TypeTrack => sr_tracks results = []
  | TypeArtist => sr_artists results = []
  | TypeAlbum => sr_albums results = []
  end ->
  search sp query type limit =
    ([EvApi (ApiSearch query type limit);
      EvPrint ("❌ No " +:+ search_type_str type +:+ "s found")],
     Return tt).
Proof.
  intros Hresp Hempty. unfold search. rewrite Hresp.
  unfold api. cbn [mbind Run_bind run_bind].
  destruct type; by rewrite Hempty.
Qed.

Lemma search_without_results_witness :
  search (client_with []) "abba" TypeArtist 10 =
    ([EvApi (ApiSearch "abba" TypeArtist 10); EvPrint "❌ No artists found"],
     Return tt).
Proof.
  exact (search_without_results (client_with []) "abba" TypeArtist 10
           {| sr_tracks := []; sr_artists := []; sr_albums := [] |}
           eq_refl eq_refl).
Defined.

(** X15. [top] asks for the range with [_term] appended, names the
    range in the header by its long name (the three ranges argparse admits
    all have one), and prints every track on one line, in the order of the
    answer, numbered from 1; no track is skipped. *)
Theorem top_lists_every_track sp answer (limit : Z) (range : TimeRange)
    (results : list Track) :
  sp_current_user_top_tracks sp limit (range_str range +:+ "_term") = Ok results ->
  dispatch sp answer (CmdTop limit range) =
    ([EvApi (ApiCurrentUserTopTracks limit (range_str range +:+ "_term"));
      EvPrint (nl +:+ "🌟 Your Top Tracks ("
               +:+ match range with
                   | RangeShort => "Last 4 Weeks"
                   | RangeMedium => "Last 6 Months"
                   | RangeLong => "All Time"
                   end
               +:+ "):" +:+ nl)]
       ++ imap (λ k track, EvPrint (track_line (Z.of_nat k + 1) track)) results,
     Return tt).
Proof.
  intros Hresp. cbn [dispatch]. unfold top_tracks. rewrite Hresp.
  unfold api. cbn [mbind Run_bind run_bind].
  rewrite for_enumerate_returns by done.
  cbn [print emit fst]. rewrite mjoin_imap_singleton.
  rewrite (imap_ext _ (λ k track, EvPrint (track_line (Z.of_nat k + 1) track)))
    by (intros k x _; cbn; by rewrite Z.add_comm).
  by destruct range.
Qed.

Lemma top_lists_every_track_witness :
  dispatch jukebox "" (CmdTop 10 RangeShort) =
    ([EvApi (ApiCurrentUserTopTracks 10 "short_term");
      EvPrint (nl +:+ "🌟 Your Top Tracks (Last 4 Weeks):" +:+ nl);
      EvPrint "1. Song - Ann, Bob";
      EvPrint "2. Song - Ann, Bob"],
     Return tt).
Proof.
  exact (top_lists_every_track jukebox "" 10 RangeShort [song; song] eq_refl).
Defined.

(** X16. When the service lists devices, [devices] prints a header and
    then two lines for every device, in the order of the answer, active or
    not: the name and type behind a check mark when the device is active
    and a blank when it is not, and the id. *)
Theorem devices_lists_every_device sp (ds : list Device) :
  sp_devices sp = Ok ds ->
  ds ≠ [] ->
  devices sp =
    ([EvApi ApiDevices; EvPrint (nl +:+ "📱 Available Devices:" +:+ nl)]
       ++ (ds ≫= λ d,
             [EvPrint ("[" +:+ (if dev_is_active d then "✓" else " ") +:+ "] "
                       +:+ dev_name d +:+ " (" +:+ dev_type d +:+ ")");
              EvPrint ("    ID: " +:+ dev_id d +:+ nl)]),
     Return tt).
Proof.
  intros Hds Hne. unfold devices. rewrite Hds.
  destruct ds as [|d ds']; [done|].
  unfold api. cbn [mbind Run_bind run_bind].
  by rewrite for_each_returns.
Qed.

Lemma devices_lists_every_device_witness :
  devices (client_with [phone; speaker]) =
    ([EvApi ApiDevices;
      EvPrint (nl +:+ "📱 Available Devices:" +:+ nl);
      EvPrint "[ ] Phone (Smartphone)";
      EvPrint ("    ID: d1" +:+ nl);
      EvPrint "[✓] Speaker (Speaker)";
      EvPrint ("    ID: d3" +:+ nl)],
     Return tt).
Proof.
  exact (devices_lists_every_device (client_with [phone; speaker])
           [phone; speaker] eq_refl ltac:(discriminate)).
Defined.

(** X17. [volume] reports the level it sent, not the level it was
    given: when the service accepts the call the line shows
    [max(0, min(100, level))]; when the call raises, the error line is
    printed instead.  Either way [volume] returns normally. *)
Theorem volume_reports_sent_level sp (level : Z) :
  volume sp level =
    ([EvApi (ApiVolume (Z.max 0 (Z.min 100 level)));
      EvPrint (match sp_volume sp (Z.max 0 (Z.min 100 level)) with
               | Ok _ =>
                   "🔊 Volume set to " +:+ str_of_Z (Z.max 0 (Z.min 100 level))
                   +:+ "%"
               | Err e => error_line e
               end)],
     Return tt)
  ∧ (volume (client_with []) 150).1 =
      [EvApi (ApiVolume 100); EvPrint "🔊 Volume set to 100%"].
Proof.
  split; [|done]. rewrite volume_trace. cbv zeta.
  rewrite py_max_spec, py_min_spec.
  by destruct (sp_volume sp (Z.max 0 (Z.min 100 level))).
Qed.

(** ** Configuration loading, away from a [.env] *)

(** X18. In a working directory without a [.env], the program loads
    [~/.spotify-cli.env] and nothing else: what [load_dotenv()] would have
    found plays no role, and two processes of one user with the same
    environment see the same variables from any two such directories. *)
Theorem env_without_dotenv_follows_home (p q : Process) :
  dotenv_files p !! path_join (cwd p) ".env" = None ->
  dotenv_files q !! path_join (cwd q) ".env" = None ->
  home q = home p ->
  environ q = environ p ->
  dotenv_files q = dotenv_files p ->
  load_env p = load_dotenv p (path_join (home p) ".spotify-cli.env")
  ∧ load_env q = load_env p.
Proof.
  intros Hp Hq Hhome Henv Hfiles.
  rewrite (load_env_without_dotenv p Hp), (load_env_without_dotenv q Hq).
  split; [done|]. unfold load_dotenv. by rewrite Hhome, Henv, Hfiles.
Qed.

Lemma env_without_dotenv_witness :
  load_env in_opt = load_env in_tmp
  ∧ load_env in_tmp !! "SPOTIFY_CLIENT_ID" = Some "home-id".
Proof.
  split; [|reflexivity].
  exact (proj2 (env_without_dotenv_follows_home in_tmp in_opt
                  eq_refl eq_refl eq_refl eq_refl eq_refl)).
Defined.

(** ** Credentials that are set but empty *)

Lemma credentials_missing_iff (p : Process) :
  credentials_missing p = true
  ↔ getenv p "SPOTIFY_CLIENT_ID" = None ∨ getenv p "SPOTIFY_CLIENT_ID" = Some ""
    ∨ getenv p "SPOTIFY_CLIENT_SECRET" = None
    ∨ getenv p "SPOTIFY_CLIENT_SECRET" = Some "".
Proof.
  unfold credentials_missing. rewrite orb_true_iff, !negb_true_iff.
  assert (Hfalsy : ∀ o, truthy o = false ↔ o = None ∨ o = Some "").
  { intros [s|]; cbn.
    - rewrite negb_false_iff, String.eqb_eq. split; [intros ->; by right|].
      intros [?|?]; by simplify_eq.
    - split; [by left | done]. }
  rewrite !Hfalsy. tauto.
Qed.

(** X19. A credential that is set to the empty string counts as
    missing: [main] prints the configuration help and exits with status 1
    without building the client, exactly as when the variable is unset;
    and these are the only environments in which it does so. *)
Theorem empty_credentials_count_as_missing p sp answer (c : Command) :
  getenv p "SPOTIFY_CLIENT_ID" = Some ""
  ∨ getenv p "SPOTIFY_CLIENT_SECRET" = Some "" ->
  main p sp answer (Parsed (Some c)) =
    (EvPrint <$> credentials_help p, SysExit 1)
  ∧ (∀ p', main p' sp answer (Parsed (Some c)) =
             (EvPrint <$> credentials_help p', SysExit 1)
           ↔ getenv p' "SPOTIFY_CLIENT_ID" = None
             ∨ getenv p' "SPOTIFY_CLIENT_ID" = Some ""
             ∨ getenv p' "SPOTIFY_CLIENT_SECRET" = None
             ∨ getenv p' "SPOTIFY_CLIENT_SECRET" = Some "").
Proof.
  intros Hempty. split.
  - apply main_missing_credentials, credentials_missing_iff. tauto.
  - intros p'. rewrite <- credentials_missing_iff. split.
    + intros Hmain. destruct (credentials_missing p') eqn:Hcred; [done|].
      destruct (main_events p' sp answer c Hcred) as (rest & Htr & _).
      rewrite Hmain in Htr. cbn in Htr. discriminate.
    + apply main_missing_credentials.
Qed.

Lemma empty_credentials_witness :
  exit_code (main empty_id_process (client_with []) "" (Parsed (Some CmdNow)))
  = 1.
Proof.
  pose proof (proj1 (empty_credentials_count_as_missing empty_id_process
                       (client_with []) "" CmdNow (or_introl eq_refl))) as H.
  by rewrite H.
Defined.

(** ** The home directory and the null progress, on examples *)

Example expanduser_strips_slashes : expanduser_of "/srv/music/" = "/srv/music".
Proof. reflexivity. Qed.

Example expanduser_of_root : expanduser_of "/" = "/".
Proof. reflexivity. Qed.

Example dotenv_can_move_the_cache :
  home_after_load home_moved_by_dotenv = "/srv/music"
  ∧ cache_path (cli_config (after_load home_moved_by_dotenv)) =
      "/srv/music/.spotify-cli-cache".
Proof. split; reflexivity. Qed.

Example home_kept_when_dotenv_has_no_home :
  home_after_load in_tmp = "/home/u".
Proof. reflexivity. Qed.

Example now_with_null_progress_raises :
  current_playback paused_without_progress =
    ([EvApi ApiCurrentPlayback], Raise type_error_floordiv).
Proof. reflexivity. Qed.
